(** * The request/response pipeline of the Kirim.Email SMTP SDK

    A shallow embedding of [src/client/SmtpClient.ts] and of the exception
    classes under [src/exceptions/], together with the properties of the
    transport core and of the log-stream decoder.

    JavaScript strings are sequences of UTF-16 code units; they are embedded
    as lists of [N].  JavaScript values are embedded by the inductive type
    [JsValue]; a thrown value is a [JsError]; a call that may throw returns a
    [JsResult]. *)

From Stdlib Require Import ZArith NArith List String Ascii Bool Lia Permutation.
Import ListNotations.

(* ===================================================================== *)
(** ** Numbers *)
(* ===================================================================== *)

(** JavaScript numbers are IEEE 754 binary64 values and the arithmetic
    rounds to nearest, ties to even.  The magnitude of a number is [Zero],
    [Infinity], or [mant * 2^exp] with [0 < mant < 2^53] and
    [-1074 <= exp <= 971], where [2^52 <= mant] unless [exp = -1074]. *)
Module Double.

Local Open Scope Z_scope.

(** [x * 2^k] for [0 <= k], and [x] otherwise: the ratio of [scale num (- k)]
    to [scale den k] is [num / den] divided by [2^k]. *)
Definition scale (x k : Z) : Z := x * 2 ^ Z.max k 0.

(** The integer nearest to [num / den], the even one of two that are equally
    near, for [0 <= num] and [0 < den]. *)
Definition round_half_even (num den : Z) : Z :=
  let q := num / den in
  let r := num mod den in
  if 2 * r <? den then q
  else if den <? 2 * r then q + 1
  else if Z.even q then q else q + 1.

(** The integer part of the binary logarithm of [num / den]. *)
Definition ilog2 (num den : Z) : Z :=
  let l := Z.log2 num - Z.log2 den in
  if scale den l <=? scale num (- l) then l else l - 1.

Inductive t : Type := Zero | Finite (mant exp : Z) | Infinity.

Definition eqb (x y : t) : bool :=
  match x, y with
  | Zero, Zero | Infinity, Infinity => true
  | Finite m e, Finite m' e' => (m =? m') && (e =? e')
  | _, _ => false
  end.

(** The number nearest to [num / den], for [0 <= num] and [0 < den]. *)
Definition of_ratio (num den : Z) : t :=
  if num =? 0 then Zero
  else
    let e := Z.max (ilog2 num den - 52) (-1074) in
    let m := round_half_even (scale num (- e)) (scale den e) in
    if m =? 0 then Zero
    else
      let (m, e) := if m =? 2 ^ 53 then (2 ^ 52, e + 1) else (m, e) in
      if 971 <? e then Infinity else Finite m e.

(** The number that the decimal [m * 10^e] denotes, for [0 <= m]: beyond
    [10^310] every decimal is [Infinity], and one below [10^-330] is zero. *)
Definition of_decimal (m e : Z) : t :=
  if 310 <? e then (if m =? 0 then Zero else Infinity)
  else if Z.log2 m + 1 + e <? -330 then Zero
  else if 0 <=? e then of_ratio (m * 10 ^ e) 1
  else of_ratio m (10 ^ (- e)).

(** [10^k <= num / den] *)
Definition ge_pow10 (num den k : Z) : bool :=
  if 0 <=? k then den * 10 ^ k <=? num else den <=? num * 10 ^ (- k).

(** The integer part of the decimal logarithm of [num / den]. *)
Definition ilog10 (num den : Z) : Z :=
  let est := (Z.log2 num - Z.log2 den) * 30103 / 100000 in
  if ge_pow10 num den (est + 1) then est + 1
  else if ge_pow10 num den est then est
  else est - 1.

(** The integer part of [num / den / 10^p]. *)
Definition floor_scaled (num den p : Z) : Z :=
  if 0 <=? p then num / (den * 10 ^ p) else (num * 10 ^ (- p)) / den.

(** [num / den] against the middle of [s * 10^p] and [(s + 1) * 10^p]. *)
Definition side (num den s p : Z) : comparison :=
  if 0 <=? p then (2 * num) ?= (2 * s + 1) * 10 ^ p * den
  else (2 * num * 10 ^ (- p)) ?= (2 * s + 1) * den.

(** The decimal [s * 10^p] with the fewest digits, [k] or more, that denotes
    the number [x = num / den]; of two with the same number of digits the
    one nearer to [x].  [n] is the number of digits of the integer part of
    [x].  Seventeen digits always denote the number back. *)
Fixpoint shortest (fuel : nat) (x : t) (num den n k : Z) : Z * Z :=
  let p := n - k in
  let lo := floor_scaled num den p in
  let hi := lo + 1 in
  match fuel with
  | O => (lo, p)
  | S fuel' =>
      let ok_lo := eqb (of_decimal lo p) x in
      let ok_hi := eqb (of_decimal hi p) x in
      if ok_lo && ok_hi then
        match side num den lo p with
        | Lt => (lo, p)
        | Gt => (hi, p)
        | Eq => if Z.even lo then (lo, p) else (hi, p)
        end
      else if ok_lo then (lo, p)
      else if ok_hi then (hi, p)
      else shortest fuel' x num den n (k + 1)
  end.

Fixpoint strip_zeros (fuel : nat) (s p : Z) : Z * Z :=
  match fuel with
  | O => (s, p)
  | S fuel' => if s mod 10 =? 0 then strip_zeros fuel' (s / 10) (p + 1) else (s, p)
  end.

(** The digits [s] and the exponent [p] of the shortest decimal [s * 10^p]
    that denotes [mant * 2^exp], as Number::toString chooses them. *)
Definition to_decimal (mant exp : Z) : Z * Z :=
  let num := scale mant exp in
  let den := scale 1 (- exp) in
  let (s, p) := shortest 17 (Finite mant exp) num den (ilog10 num den + 1) 1 in
  strip_zeros 18 s p.

(** The result of an operation on integers: an integer, or an infinity. *)
Inductive number : Type := Int (z : Z) | Inf (negative : bool).

(** The number nearest to the integer [z]: the result of an addition, a
    subtraction or a multiplication of integers whose exact result is [z]. *)
Definition round (z : Z) : number :=
  match of_ratio (Z.abs z) 1 with
  | Zero => Int 0
  | Finite m e => Int (Z.sgn z * (scale m e / scale 1 (- e)))
  | Infinity => Inf (z <? 0)
  end.

(** [Math.floor(a / b)] for integers [a] and [0 < b]. *)
Definition floor_div (a b : Z) : number :=
  match of_ratio (Z.abs a) b with
  | Zero => Int 0
  | Finite m e =>
      let num := scale m e in
      let den := scale 1 (- e) in
      Int (if 0 <=? a then num / den else - ((num + den - 1) / den))
  | Infinity => Inf (a <? 0)
  end.

End Double.

(* ===================================================================== *)
(** ** JavaScript strings *)
(* ===================================================================== *)

Module Js.

Definition jsstring := list N.

(** The JavaScript string whose code units are the bytes of an ASCII
    literal. *)
Definition js (s : string) : jsstring :=
  map N_of_ascii (list_ascii_of_string s).

(** A literal written with escapes: a single quote stands for the double
    quote, backslash-n for the line feed, backslash-backslash for the
    backslash. *)
Fixpoint unescape (s : jsstring) : jsstring :=
  match s with
  | [] => []
  | c :: r =>
      if (c =? 39)%N then 34%N :: unescape r
      else if (c =? 92)%N then
        match r with
        | d :: r' =>
            if (d =? 110)%N then 10%N :: unescape r'
            else if (d =? 92)%N then 92%N :: unescape r'
            else c :: unescape r
        | [] => [c]
        end
      else c :: unescape r
  end.

Definition jsq (s : string) : jsstring := unescape (js s).

Fixpoint str_eqb (a b : jsstring) : bool :=
  match a, b with
  | [], [] => true
  | x :: a', y :: b' => N.eqb x y && str_eqb a' b'
  | _, _ => false
  end.

(** [s.startsWith(p)] *)
Fixpoint startsWith (p s : jsstring) : bool :=
  match p, s with
  | [], _ => true
  | x :: p', y :: s' => N.eqb x y && startsWith p' s'
  | _ :: _, [] => false
  end.

(** [s.endsWith(p)] *)
Definition endsWith (p s : jsstring) : bool :=
  startsWith (rev p) (rev s).

(** [s.slice(n)] for [0 <= n]. *)
Definition slice (n : nat) (s : jsstring) : jsstring := skipn n s.

(** Decimal digits of a natural number, most significant first. *)
Fixpoint digits_from (fuel : nat) (n : N) (acc : jsstring) : jsstring :=
  match fuel with
  | O => acc
  | S fuel' =>
      let acc' := (48 + n mod 10)%N :: acc in
      if (n / 10 =? 0)%N then acc' else digits_from fuel' (n / 10)%N acc'
  end.

Definition N_to_js (n : N) : jsstring :=
  digits_from (S (N.to_nat (N.log2 n))) n [].

Definition Z_to_js (z : Z) : jsstring :=
  if (z <? 0)%Z then 45%N :: N_to_js (Z.to_N (- z)) else N_to_js (Z.to_N z).

Fixpoint repeat_unit (c : N) (n : nat) : jsstring :=
  match n with O => [] | S n' => c :: repeat_unit c n' end.

(* --------------------------------------------------------------------- *)
(** ** JavaScript values *)

(** A number is kept as a decimal [m * 10^e] that denotes it, as a numeric
    literal does: the number is the binary64 value nearest to the decimal.
    The parser normalises the decimal so that [m] is not a multiple of ten
    (and [e = 0] when [m = 0]).
    [JDate shown] is a [Date] object (or any host object) whose [toString()]
    returns [shown].  [JPromise settled] is a promise object; [settled] is
    what it resolves to, [None] when it rejects.  Object properties are kept
    in enumeration order. *)
#[local] Unset Elimination Schemes.
Inductive JsValue : Type :=
| JUndefined
| JNull
| JBool (b : bool)
| JNum (m e : Z)
| JStr (s : jsstring)
| JArr (items : list JsValue)
| JObj (props : list (jsstring * JsValue))
| JDate (shown : jsstring)
| JPromise (settled : option JsValue).
#[local] Set Elimination Schemes.

Definition JInt (z : Z) : JsValue := JNum z 0.

(** ToBoolean *)
Definition truthy (v : JsValue) : bool :=
  match v with
  | JUndefined | JNull => false
  | JBool b => b
  | JNum m e => negb (Double.eqb (Double.of_decimal (Z.abs m) e) Double.Zero)
  | JStr s => match s with [] => false | _ => true end
  | JArr _ | JObj _ | JDate _ | JPromise _ => true
  end.

(** [a || b] *)
Definition or_else (a b : JsValue) : JsValue := if truthy a then a else b.

(** Own property lookup in a record kept in enumeration order. *)
Fixpoint lookup {A : Type} (k : jsstring) (props : list (jsstring * A)) : option A :=
  match props with
  | [] => None
  | (k', v) :: rest => if str_eqb k k' then Some v else lookup k rest
  end.

(** [o[k] = v]: an existing property keeps its place, a new one is added
    last. *)
Fixpoint set_prop {A : Type} (k : jsstring) (v : A) (props : list (jsstring * A))
    : list (jsstring * A) :=
  match props with
  | [] => [(k, v)]
  | (k', v') :: rest =>
      if str_eqb k k' then (k', v) :: rest else (k', v') :: set_prop k v rest
  end.

(** [o.k] for a data property [k].  A plain object answers with its own
    property; every other object (array, date, promise) has no own data
    property of the names read by the client ([message], [error], [errors])
    and answers [undefined].  (Reading a property of [undefined] or [null]
    throws; the client never does so.) *)
Definition get_prop (o : JsValue) (k : jsstring) : JsValue :=
  match o with
  | JObj props => match lookup k props with Some v => v | None => JUndefined end
  | _ => JUndefined
  end.

(** Number::toString of the number that the decimal [m * 10^e] denotes:
    the shortest digits that denote it, in fixed notation when the decimal
    point falls within them or at most twenty-one digits to the right or six
    to the left, in exponent notation otherwise. *)
Definition Number_toString (m e : Z) : jsstring :=
  let sign := if (m <? 0)%Z then [45%N] else [] in
  match Double.of_decimal (Z.abs m) e with
  | Double.Zero => js "0"
  | Double.Infinity => sign ++ js "Infinity"
  | Double.Finite mant exp =>
      let (s, p) := Double.to_decimal mant exp in
      let ds := N_to_js (Z.to_N s) in
      let k := Z.of_nat (List.length ds) in
      let n := (p + k)%Z in
      sign ++
      if ((k <=? n) && (n <=? 21))%Z
      then ds ++ repeat_unit 48%N (Z.to_nat (n - k))
      else if ((0 <? n) && (n <=? 21))%Z
      then firstn (Z.to_nat n) ds ++ [46%N] ++ skipn (Z.to_nat n) ds
      else if ((-6 <? n) && (n <=? 0))%Z
      then js "0." ++ repeat_unit 48%N (Z.to_nat (- n)) ++ ds
      else
        let ex := (n - 1)%Z in
        let tail := [101%N] ++ (if (0 <=? ex)%Z then [43%N] else [45%N])
                      ++ N_to_js (Z.to_N (Z.abs ex)) in
        match ds with
        | [] => tail
        | [d] => d :: tail
        | d :: rest => d :: 46%N :: rest ++ tail
        end
  end.

Fixpoint join_with (sep : jsstring) (parts : list jsstring) : jsstring :=
  match parts with
  | [] => []
  | [p] => p
  | p :: rest => p ++ sep ++ join_with sep rest
  end.

(** ToString *)
Fixpoint ToString (v : JsValue) : jsstring :=
  match v with
  | JUndefined => js "undefined"
  | JNull => js "null"
  | JBool true => js "true"
  | JBool false => js "false"
  | JNum m e => Number_toString m e
  | JStr s => s
  | JArr items =>
      join_with [44%N]
        (map (fun x => match x with
                       | JUndefined | JNull => []
                       | _ => ToString x
                       end) items)
  | JObj _ => js "[object Object]"
  | JDate shown => shown
  | JPromise _ => js "[object Promise]"
  end.

End Js.
Import Js.

(* ===================================================================== *)
(** ** Exceptions ([src/exceptions/]) *)
(* ===================================================================== *)

Module Exceptions.

(** The class of an SDK exception; [name] is the class name. *)
Inductive ExceptionClass : Type :=
| ApiException
| AuthenticationException
| ValidationException
| NotFoundException
| ServerException.

Definition class_name (c : ExceptionClass) : jsstring :=
  match c with
  | ApiException => js "ApiException"
  | AuthenticationException => js "AuthenticationException"
  | ValidationException => js "ValidationException"
  | NotFoundException => js "NotFoundException"
  | ServerException => js "ServerException"
  end.

(** An instance of [ApiException] or of one of its subclasses. *)
Record Exception : Type := {
  class : ExceptionClass;
  message : jsstring;
  statusCode : option Z;
  errors : JsValue
}.

(** [new ApiException(message, statusCode?, errors?)]; [Error] converts its
    message with ToString. *)
Definition new_ApiException (message : JsValue) (statusCode : option Z)
    (errors : JsValue) : Exception :=
  {| class := ApiException; message := ToString message;
     statusCode := statusCode; errors := errors |}.

(** [super(...)] followed by [this.name = ...] *)
Definition subclass (c : ExceptionClass) (base : Exception) : Exception :=
  {| class := c; message := message base;
     statusCode := statusCode base; errors := errors base |}.

Definition new_ValidationException (message errors : JsValue) : Exception :=
  subclass ValidationException (new_ApiException message (Some 422%Z) errors).

Definition new_AuthenticationException (message : JsValue) : Exception :=
  subclass AuthenticationException (new_ApiException message (Some 401%Z) JUndefined).

Definition new_NotFoundException (message : JsValue) : Exception :=
  subclass NotFoundException (new_ApiException message (Some 404%Z) JUndefined).

Definition new_ServerException (message : JsValue) : Exception :=
  subclass ServerException (new_ApiException message (Some 500%Z) JUndefined).

End Exceptions.
Import Exceptions.

(* ===================================================================== *)
(** ** [JSON.parse] and [String.prototype.trim] *)
(* ===================================================================== *)

Module Json.

Local Open Scope N_scope.

(** JSON white space: space, tab, line feed, carriage return. *)
Definition is_ws (c : N) : bool :=
  (c =? 32) || (c =? 9) || (c =? 10) || (c =? 13).

Fixpoint skip_ws (s : jsstring) : jsstring :=
  match s with
  | c :: r => if is_ws c then skip_ws r else s
  | [] => []
  end.

Definition is_digit (c : N) : bool := (48 <=? c) && (c <=? 57).

Fixpoint take_digits (s : jsstring) : jsstring * jsstring :=
  match s with
  | c :: r =>
      if is_digit c then let (ds, rest) := take_digits r in (c :: ds, rest)
      else ([], s)
  | [] => ([], [])
  end.

Definition digits_value (ds : jsstring) : Z :=
  fold_left (fun acc d => (acc * 10 + Z.of_N (d - 48))%Z) ds 0%Z.

(** Remove the factors of ten of a mantissa. *)
Fixpoint strip_tens (fuel : nat) (m e : Z) : Z * Z :=
  match fuel with
  | O => (m, e)
  | S fuel' =>
      if (m mod 10 =? 0)%Z then strip_tens fuel' (m / 10)%Z (e + 1)%Z else (m, e)
  end.

Definition normalise (m e : Z) : JsValue :=
  if (m =? 0)%Z then JNum 0 0
  else let (m', e') := strip_tens (Z.to_nat (Z.log2 (Z.abs m))) m e in JNum m' e'.

(** The integer part of a JSON number: [0] or a digit [1-9] followed by
    digits. *)
Definition take_int (s : jsstring) : option (jsstring * jsstring) :=
  match s with
  | c :: r =>
      if c =? 48 then Some ([c], r)
      else if is_digit c then Some (take_digits s)
      else None
  | [] => None
  end.

Definition take_frac (s : jsstring) : option (jsstring * jsstring) :=
  match s with
  | 46 :: r =>
      match take_digits r with
      | ([], _) => None
      | (ds, rest) => Some (ds, rest)
      end
  | _ => Some ([], s)
  end.

Definition take_exp (s : jsstring) : option (Z * jsstring) :=
  match s with
  | c :: r =>
      if (c =? 101) || (c =? 69) then
        let (neg, r1) :=
          match r with
          | 45 :: r' => (true, r')
          | 43 :: r' => (false, r')
          | _ => (false, r)
          end in
        match take_digits r1 with
        | ([], _) => None
        | (ds, rest) =>
            Some ((if neg then - digits_value ds else digits_value ds)%Z, rest)
        end
      else Some (0%Z, s)
  | [] => Some (0%Z, [])
  end.

Definition parse_number (s : jsstring) : option (JsValue * jsstring) :=
  let (neg, s1) := match s with 45 :: r => (true, r) | _ => (false, s) end in
  match take_int s1 with
  | None => None
  | Some (ints, s2) =>
      match take_frac s2 with
      | None => None
      | Some (fracs, s3) =>
          match take_exp s3 with
          | None => None
          | Some (ex, s4) =>
              let m := digits_value (ints ++ fracs) in
              Some (normalise (if neg then - m else m)%Z
                              (ex - Z.of_nat (List.length fracs))%Z, s4)
          end
      end
  end.

Definition hex_value (c : N) : option N :=
  if is_digit c then Some (c - 48)
  else if (97 <=? c) && (c <=? 102) then Some (c - 87)
  else if (65 <=? c) && (c <=? 70) then Some (c - 55)
  else None.

Definition hex4 (a b c d : N) : option N :=
  match hex_value a, hex_value b, hex_value c, hex_value d with
  | Some x, Some y, Some z, Some w => Some (((x * 16 + y) * 16 + z) * 16 + w)
  | _, _, _, _ => None
  end.

(** The characters of a string literal after its opening quote; [acc] holds
    the code units read so far, last first. *)
Fixpoint parse_string_body (s : jsstring) (acc : jsstring) : option (jsstring * jsstring) :=
  match s with
  | [] => None
  | c :: r =>
      if c =? 34 then Some (rev acc, r)
      else if c =? 92 then
        match r with
        | [] => None
        | x :: r' =>
            if x =? 34 then parse_string_body r' (34 :: acc)
            else if x =? 92 then parse_string_body r' (92 :: acc)
            else if x =? 47 then parse_string_body r' (47 :: acc)
            else if x =? 98 then parse_string_body r' (8 :: acc)
            else if x =? 102 then parse_string_body r' (12 :: acc)
            else if x =? 110 then parse_string_body r' (10 :: acc)
            else if x =? 114 then parse_string_body r' (13 :: acc)
            else if x =? 116 then parse_string_body r' (9 :: acc)
            else if x =? 117 then
              match r' with
              | h1 :: h2 :: h3 :: h4 :: r'' =>
                  match hex4 h1 h2 h3 h4 with
                  | Some u => parse_string_body r'' (u :: acc)
                  | None => None
                  end
              | _ => None
              end
            else None
        end
      else if c <? 32 then None
      else parse_string_body r (c :: acc)
  end.

Definition parse_literal (word : jsstring) (v : JsValue) (s : jsstring)
    : option (JsValue * jsstring) :=
  if startsWith word s then Some (v, skipn (List.length word) s) else None.

(** A JSON value at the head of [s] (white space already skipped), the
    elements of an array after its opening bracket, and the members of an
    object after its opening brace.  A repeated member name keeps its first
    place and takes the last value. *)
Fixpoint parse_value (fuel : nat) (s : jsstring) {struct fuel}
    : option (JsValue * jsstring) :=
  match fuel with
  | O => None
  | S fuel' =>
      match s with
      | [] => None
      | c :: r =>
          if c =? 123 then
            match skip_ws r with
            | 125 :: r' => Some (JObj [], r')
            | r1 =>
                match parse_members fuel' r1 [] with
                | Some (props, rest) => Some (JObj props, rest)
                | None => None
                end
            end
          else if c =? 91 then
            match skip_ws r with
            | 93 :: r' => Some (JArr [], r')
            | r1 =>
                match parse_elements fuel' r1 [] with
                | Some (items, rest) => Some (JArr items, rest)
                | None => None
                end
            end
          else if c =? 34 then
            match parse_string_body r [] with
            | Some (str, rest) => Some (JStr str, rest)
            | None => None
            end
          else if (c =? 45) || is_digit c then parse_number s
          else if c =? 116 then parse_literal (js "true") (JBool true) s
          else if c =? 102 then parse_literal (js "false") (JBool false) s
          else if c =? 110 then parse_literal (js "null") JNull s
          else None
      end
  end

with parse_elements (fuel : nat) (s : jsstring) (acc : list JsValue) {struct fuel}
    : option (list JsValue * jsstring) :=
  match fuel with
  | O => None
  | S fuel' =>
      match parse_value fuel' (skip_ws s) with
      | None => None
      | Some (v, rest) =>
          match skip_ws rest with
          | 44 :: rest' => parse_elements fuel' rest' (v :: acc)
          | 93 :: rest' => Some (rev (v :: acc), rest')
          | _ => None
          end
      end
  end

with parse_members (fuel : nat) (s : jsstring) (acc : list (jsstring * JsValue))
    {struct fuel} : option (list (jsstring * JsValue) * jsstring) :=
  match fuel with
  | O => None
  | S fuel' =>
      match skip_ws s with
      | 34 :: r =>
          match parse_string_body r [] with
          | None => None
          | Some (key, r1) =>
              match skip_ws r1 with
              | 58 :: r2 =>
                  match parse_value fuel' (skip_ws r2) with
                  | None => None
                  | Some (v, rest) =>
                      match skip_ws rest with
                      | 44 :: rest' => parse_members fuel' rest' (set_prop key v acc)
                      | 125 :: rest' => Some (set_prop key v acc, rest')
                      | _ => None
                      end
                  end
              | _ => None
              end
          end
      | _ => None
      end
  end.

(** [JSON.parse(text)]; [None] stands for the [SyntaxError] it throws.  Two
    units of fuel for every code unit are enough: a value that opens an
    array or an object spends two to reach its first element, and every
    further element has used at least two code units. *)
Definition JSON_parse (text : jsstring) : option JsValue :=
  match parse_value (2 * List.length text + 2) (skip_ws text) with
  | Some (v, rest) =>
      match skip_ws rest with
      | [] => Some v
      | _ :: _ => None
      end
  | None => None
  end.

(** White space and line terminators of ECMAScript, as removed by
    [String.prototype.trim]. *)
Definition is_js_space (c : N) : bool :=
  ((9 <=? c) && (c <=? 13)) || (c =? 32) || (c =? 160) || (c =? 5760)
  || ((8192 <=? c) && (c <=? 8202)) || (c =? 8232) || (c =? 8233)
  || (c =? 8239) || (c =? 8287) || (c =? 12288) || (c =? 65279).

Fixpoint trimStart (s : jsstring) : jsstring :=
  match s with
  | c :: r => if is_js_space c then trimStart r else s
  | [] => []
  end.

(** [s.trim()] *)
Definition trim (s : jsstring) : jsstring :=
  rev (trimStart (rev (trimStart s))).

End Json.
Import Json.


(* ===================================================================== *)
(** ** Encodings: UTF-8, base64, form-urlencoded *)
(* ===================================================================== *)

Module Encoding.

Local Open Scope N_scope.

Definition is_high_surrogate (c : N) : bool := (55296 <=? c) && (c <? 56320).
Definition is_low_surrogate (c : N) : bool := (56320 <=? c) && (c <? 57344).

(** U+FFFD in UTF-8 *)
Definition replacement : list N := [239; 191; 189].

Definition utf8_2 (c : N) : list N := [192 + c / 64; 128 + c mod 64].
Definition utf8_3 (c : N) : list N :=
  [224 + c / 4096; 128 + (c / 64) mod 64; 128 + c mod 64].
Definition utf8_4 (c : N) : list N :=
  [240 + c / 262144; 128 + (c / 4096) mod 64; 128 + (c / 64) mod 64; 128 + c mod 64].

(** The UTF-8 bytes of a string of UTF-16 code units, as produced by
    [Buffer.from(s)] and by the URL serialiser; a surrogate without its
    partner becomes U+FFFD. *)
Fixpoint utf8_encode (s : jsstring) : list N :=
  match s with
  | [] => []
  | c :: r =>
      if c <? 128 then c :: utf8_encode r
      else if c <? 2048 then utf8_2 c ++ utf8_encode r
      else if is_high_surrogate c then
        match r with
        | d :: r' =>
            if is_low_surrogate d
            then utf8_4 (65536 + (c - 55296) * 1024 + (d - 56320)) ++ utf8_encode r'
            else replacement ++ utf8_encode r
        | [] => replacement
        end
      else if is_low_surrogate c then replacement ++ utf8_encode r
      else utf8_3 c ++ utf8_encode r
  end.

(** The conversion of a string to a USVString
    ([String.prototype.toWellFormed]): a surrogate without its partner
    becomes U+FFFD. *)
Fixpoint toWellFormed (s : jsstring) : jsstring :=
  match s with
  | [] => []
  | c :: r =>
      if is_high_surrogate c then
        match r with
        | d :: r' =>
            if is_low_surrogate d then c :: d :: toWellFormed r'
            else 65533 :: toWellFormed r
        | [] => [65533]
        end
      else if is_low_surrogate c then 65533 :: toWellFormed r
      else c :: toWellFormed r
  end.

(** The base64 digit of a six-bit value. *)
Definition base64_digit (i : N) : N :=
  if i <? 26 then 65 + i
  else if i <? 52 then 97 + (i - 26)
  else if i <? 62 then 48 + (i - 52)
  else if i =? 62 then 43
  else 47.

(** [buffer.toString('base64')] *)
Fixpoint base64_encode (bytes : list N) : jsstring :=
  match bytes with
  | [] => []
  | [a] => [base64_digit (a / 4); base64_digit ((a mod 4) * 16); 61; 61]
  | [a; b] =>
      [base64_digit (a / 4); base64_digit ((a mod 4) * 16 + b / 16);
       base64_digit ((b mod 16) * 4); 61]
  | a :: b :: c :: r =>
      [base64_digit (a / 4); base64_digit ((a mod 4) * 16 + b / 16);
       base64_digit ((b mod 16) * 4 + c / 64); base64_digit (c mod 64)]
        ++ base64_encode r
  end.

(** [Buffer.from(s).toString('base64')] *)
Definition Buffer_base64 (s : jsstring) : jsstring := base64_encode (utf8_encode s).

Definition hex_digit (i : N) : N := if i <? 10 then 48 + i else 55 + i.

Definition is_alnum (b : N) : bool :=
  ((48 <=? b) && (b <=? 57)) || ((65 <=? b) && (b <=? 90)) || ((97 <=? b) && (b <=? 122)).

(** One byte under the application/x-www-form-urlencoded serialiser. *)
Definition form_byte (b : N) : jsstring :=
  if b =? 32 then [43]
  else if is_alnum b || (b =? 42) || (b =? 45) || (b =? 46) || (b =? 95) then [b]
  else [37; hex_digit (b / 16); hex_digit (b mod 16)].

Definition form_encode (s : jsstring) : jsstring :=
  flat_map form_byte (utf8_encode s).

End Encoding.
Import Encoding.

(* ===================================================================== *)
(** ** [TextDecoder] in streaming mode *)
(* ===================================================================== *)

(** The UTF-8 decoder of the Encoding standard, as a machine that takes one
    byte at a time; [decoder.decode(value, {stream: true})] runs it over the
    bytes of [value] and keeps its state for the next call, so a character
    whose bytes lie in two chunks comes out with the second.  An ill-formed
    sequence gives U+FFFD; a byte order mark at the very start is dropped. *)
Module TextDecoder.

Local Open Scope N_scope.

Record State : Type := {
  code_point : N;
  bytes_seen : N;
  bytes_needed : N;
  lower_boundary : N;
  upper_boundary : N;
  bom_pending : bool
}.

(** [new TextDecoder()] *)
Definition initial : State :=
  {| code_point := 0; bytes_seen := 0; bytes_needed := 0;
     lower_boundary := 128; upper_boundary := 191; bom_pending := true |}.

(** Between two characters, with the first output already made. *)
Definition idle : State :=
  {| code_point := 0; bytes_seen := 0; bytes_needed := 0;
     lower_boundary := 128; upper_boundary := 191; bom_pending := false |}.

(** The UTF-16 code units of a code point. *)
Definition code_units (cp : N) : jsstring :=
  if cp <? 65536 then [cp]
  else [55296 + (cp - 65536) / 1024; 56320 + (cp - 65536) mod 1024].

(** The output for a code point; the first one is dropped when it is the
    byte order mark. *)
Definition emit (bom : bool) (cp : N) : jsstring :=
  if bom && (cp =? 65279) then [] else code_units cp.

(** A byte met between two characters. *)
Definition lead (bom : bool) (b : N) : State * jsstring :=
  if b <=? 127 then (idle, emit bom b)
  else if (194 <=? b) && (b <=? 223) then
    ({| code_point := b mod 32; bytes_seen := 0; bytes_needed := 1;
        lower_boundary := 128; upper_boundary := 191; bom_pending := bom |}, [])
  else if (224 <=? b) && (b <=? 239) then
    ({| code_point := b mod 16; bytes_seen := 0; bytes_needed := 2;
        lower_boundary := if b =? 224 then 160 else 128;
        upper_boundary := if b =? 237 then 159 else 191;
        bom_pending := bom |}, [])
  else if (240 <=? b) && (b <=? 244) then
    ({| code_point := b mod 8; bytes_seen := 0; bytes_needed := 3;
        lower_boundary := if b =? 240 then 144 else 128;
        upper_boundary := if b =? 244 then 143 else 191;
        bom_pending := bom |}, [])
  else (idle, emit bom 65533).

(** One byte: the new state and the code units that come out. *)
Definition step (st : State) (b : N) : State * jsstring :=
  if bytes_needed st =? 0 then lead (bom_pending st) b
  else if (b <? lower_boundary st) || (upper_boundary st <? b) then
    let (st', out) := lead false b in
    (st', emit (bom_pending st) 65533 ++ out)
  else
    let cp := code_point st * 64 + b mod 64 in
    let seen := bytes_seen st + 1 in
    if seen =? bytes_needed st then (idle, emit (bom_pending st) cp)
    else
      ({| code_point := cp; bytes_seen := seen; bytes_needed := bytes_needed st;
          lower_boundary := 128; upper_boundary := 191;
          bom_pending := bom_pending st |}, []).

(** [decoder.decode(value, {stream: true})] from the state [st]. *)
Fixpoint decode (st : State) (value : list N) : State * jsstring :=
  match value with
  | [] => (st, [])
  | b :: rest =>
      let (st1, out1) := step st b in
      let (st2, out2) := decode st1 rest in
      (st2, out1 ++ out2)
  end.

End TextDecoder.


(* ===================================================================== *)
(** ** Responses and thrown values *)
(* ===================================================================== *)

Module Http.

(** The [name] and [message] of an error object. *)
Record ErrorInfo : Type := { err_name : jsstring; err_message : jsstring }.

(** What [response.body.getReader()] delivers: the chunks of bytes that the
    successive calls of [read()] give, and then either [done]
    ([ending = None]) or a rejected read. *)
Record BodyReader : Type := { reads : list (list N); ending : option ErrorInfo }.

(** A fetch [Response] as ky hands it over.  [json_result] is what awaiting
    [response.json()] gives: the parsed body, or the error it rejects with. *)
Record Response : Type := {
  status : Z;
  statusText : jsstring;
  json_result : JsValue + ErrorInfo;
  body : option BodyReader
}.

(** [response.ok] *)
Definition Response_ok (r : Response) : bool :=
  (200 <=? status r)%Z && (status r <=? 299)%Z.

(** [response.json()] without [await]: a promise object. *)
Definition Response_json (r : Response) : JsValue :=
  JPromise (match json_result r with inl v => Some v | inr _ => None end).

(** A thrown value: an exception of the SDK, or any other error object
    (thrown by ky, by fetch or by the runtime), with the [response] property
    that ky's [HTTPError] carries. *)
Inductive JsError : Type :=
| HostError (info : ErrorInfo) (response : option Response)
| SdkError (e : Exception).

Definition error_name (error : JsError) : jsstring :=
  match error with
  | HostError info _ => err_name info
  | SdkError e => class_name (class e)
  end.

Definition error_message (error : JsError) : jsstring :=
  match error with
  | HostError info _ => err_message info
  | SdkError e => message e
  end.

(** The [HTTPError] that ky throws for a response. *)
Definition HTTPError (r : Response) : JsError :=
  HostError {| err_name := js "HTTPError";
               err_message := js "Request failed with status code "
                                ++ Z_to_js (status r) |} (Some r).

(** The [TypeError] of reading a property of [undefined]. *)
Definition TypeError_undefined (prop : jsstring) : JsError :=
  HostError {| err_name := js "TypeError";
               err_message := js "Cannot read properties of undefined (reading '"
                                ++ prop ++ js "')" |} None.

(** The completion of a call: a value, or a thrown error. *)
Inductive JsResult (A : Type) : Type :=
| Returns (a : A)
| Throws (e : JsError).

Arguments Returns {A} a.
Arguments Throws {A} e.

End Http.
Import Http.

(* ===================================================================== *)
(** ** The client ([src/client/SmtpClient.ts]) *)
(* ===================================================================== *)

Module Client.

Definition Headers := list (jsstring * jsstring).

(** A [URLSearchParams] object: its list of name-value pairs. *)
Definition URLSearchParams := list (jsstring * jsstring).

(** [new URLSearchParams(record)]: one pair per own property, in enumeration
    order, every value converted with ToString. *)
Definition new_URLSearchParams (init : list (jsstring * JsValue)) : URLSearchParams :=
  map (fun kv => (fst kv, ToString (snd kv))) init.

(** [searchParams.toString()] *)
Definition URLSearchParams_toString (p : URLSearchParams) : jsstring :=
  join_with [38%N]
    (map (fun kv => form_encode (fst kv) ++ [61%N] ++ form_encode (snd kv)) p).

(** [types/index.ts] *)
Record BasicAuthCredentials : Type := { username : jsstring; token : jsstring }.

Module RequestOptions.
Record t : Type := {
  headers : option Headers;
  timeout : option Z;
  retries : option Z
}.
End RequestOptions.

Inductive FileContent : Type :=
| TextContent (text : jsstring)
| BufferContent (bytes : list N).

Record FileUpload : Type := {
  field : jsstring;
  filename : jsstring;
  content : FileContent;
  contentType : option jsstring
}.

(** An entry value of a [FormData]: a string, or a file with its bytes, its
    type and its name. *)
Inductive FormValue : Type :=
| FormText (value : jsstring)
| FormBlob (bytes : list N) (type : jsstring) (filename : jsstring).

(** A [FormData] object: its entries, in the order in which they were
    appended. *)
Definition FormData := list (jsstring * FormValue).

(** [formData.append(name, value)] for a string; names and values are
    converted to USVStrings. *)
Definition FormData_append (formData : FormData) (name value : jsstring) : FormData :=
  formData ++ [(toWellFormed name, FormText (toWellFormed value))].

(** The type of a [Blob]: the type that was given, in lower case, or the
    empty string when it holds a character outside U+0020 to U+007E. *)
Definition Blob_type (type : jsstring) : jsstring :=
  if forallb (fun c => (32 <=? c) && (c <=? 126))%N type
  then map (fun c => if ((65 <=? c) && (c <=? 90))%N then (c + 32)%N else c) type
  else [].

(** [new Blob([content], { type })]: the bytes and the type of the blob; a
    string is stored in UTF-8. *)
Definition new_Blob (content : FileContent) (type : jsstring) : list N * jsstring :=
  (match content with
   | TextContent text => utf8_encode text
   | BufferContent bytes => bytes
   end, Blob_type type).

(** [formData.append(name, blob, filename)] *)
Definition FormData_append_blob (formData : FormData) (name : jsstring)
    (blob : list N * jsstring) (filename : jsstring) : FormData :=
  formData ++ [(toWellFormed name, FormBlob (fst blob) (snd blob) (toWellFormed filename))].

(** The options object handed to ky. *)
Module Options.
Record t : Type := {
  method : option jsstring;
  searchParams : option URLSearchParams;
  headers : option Headers;
  timeout : option Z;
  retry : option Z;
  json : JsValue;
  body : option FormData
}.
End Options.

Record RetryOptions : Type := {
  limit : Z;
  methods : list jsstring;
  statusCodes : list Z
}.

(** The instance that [ky.create] returns, as its defaults. *)
Record KyInstance : Type := {
  prefixUrl : jsstring;
  timeout : Z;
  retry : RetryOptions;
  headers : Headers
}.

Definition ky_create (prefixUrl : jsstring) : KyInstance :=
  {| prefixUrl := prefixUrl;
     timeout := 30000;
     retry := {| limit := 3;
                 methods := [js "get"; js "put"; js "delete"; js "head";
                             js "trace"; js "options"];
                 statusCodes := [408; 413; 429; 500; 502; 503; 504]%Z |};
     headers := [(js "User-Agent", js "@kirimemail/smtp-sdk/1.0.0");
                 (js "Accept", js "application/json");
                 (js "Content-Type", js "application/json")] |}.

Record SmtpClient : Type := {
  kyInstance : KyInstance;
  basicAuth : option BasicAuthCredentials;
  baseUrl : jsstring
}.

(** [s.replace(/\/$/, '')] *)
Definition strip_trailing_slash (s : jsstring) : jsstring :=
  if endsWith [47%N] s then removelast s else s.

Definition nonempty (s : jsstring) : bool :=
  match s with [] => false | _ :: _ => true end.

Definition default_baseUrl : jsstring := js "https://smtp-app.kirim.email".

(** [new SmtpClient(username?, token?, baseUrl?)] *)
Definition new_SmtpClient (username token baseUrl : option jsstring) : SmtpClient :=
  let base :=
    strip_trailing_slash
      (match baseUrl with Some b => b | None => default_baseUrl end) in
  {| kyInstance := ky_create base;
     basicAuth :=
       match username, token with
       | Some u, Some t =>
           if nonempty u && nonempty t
           then Some {| username := u; token := t |}
           else None
       | _, _ => None
       end;
     baseUrl := base |}.

Definition setBaseUrl (c : SmtpClient) (baseUrl : jsstring) : SmtpClient :=
  let base := strip_trailing_slash baseUrl in
  {| kyInstance := ky_create base; basicAuth := basicAuth c; baseUrl := base |}.

Definition getBaseUrl (c : SmtpClient) : jsstring := baseUrl c.

Definition setBasicAuth (c : SmtpClient) (username token : jsstring) : SmtpClient :=
  {| kyInstance := kyInstance c;
     basicAuth := Some {| username := username; token := token |};
     baseUrl := baseUrl c |}.

Definition hasBasicAuth (c : SmtpClient) : bool :=
  match basicAuth c with Some _ => true | None => false end.

(** [{ ...options.headers }] *)
Definition spread_headers (h : option Headers) : Headers :=
  match h with Some h' => h' | None => [] end.

Definition addAuthentication (c : SmtpClient) (options : Options.t)
    (endpoint : jsstring) : Options.t :=
  let headers := spread_headers (Options.headers options) in
  let headers :=
    match basicAuth c with
    | Some auth =>
        let authString := username auth ++ js ":" ++ token auth in
        set_prop (js "Authorization") (js "Basic " ++ Buffer_base64 authString) headers
    | None => headers
    end in
  {| Options.method := Options.method options;
     Options.searchParams := Options.searchParams options;
     Options.headers := Some headers;
     Options.timeout := Options.timeout options;
     Options.retry := Options.retry options;
     Options.json := Options.json options;
     Options.body := Options.body options |}.

(** [handleError] never returns: the result is the value it throws.
    [error.response.json()] is not awaited, so [errorData] is the promise
    object itself; the call does not throw, and the [catch] clause that would
    fall back to the status text is never entered. *)
Definition handleError (error : JsError) (endpoint : jsstring) : JsError :=
  if str_eqb (error_name error) (js "HTTPError") then
    match error with
    | HostError _ (Some response) =>
        let status := status response in
        let errorData := Response_json response in
        let message :=
          or_else (or_else (get_prop errorData (js "message"))
                           (get_prop errorData (js "error")))
                  (JStr (js "Unknown API error")) in
        if (status =? 400)%Z || (status =? 422)%Z then
          SdkError (new_ValidationException message (get_prop errorData (js "errors")))
        else if (status =? 401)%Z || (status =? 403)%Z then
          SdkError (new_AuthenticationException message)
        else if (status =? 404)%Z then
          SdkError (new_NotFoundException message)
        else if (status >=? 500)%Z then
          SdkError (new_ServerException message)
        else
          SdkError (new_ApiException message (Some status) JUndefined)
    | _ => TypeError_undefined (js "status")
    end
  else if str_eqb (error_name error) (js "TimeoutError") then
    SdkError (new_ApiException (JStr (js "Request timeout")) None JUndefined)
  else if str_eqb (error_name error) (js "NetworkError") then
    SdkError (new_ApiException (JStr (js "Network error")) None JUndefined)
  else
    match error with
    | SdkError _ => error
    | HostError _ _ =>
        SdkError (new_ApiException
                    (JStr (js "Unexpected error: " ++ error_message error))
                    None JUndefined)
    end.

(** One invocation of the ky instance. *)
Record KyCall : Type := {
  instance : KyInstance;
  input : jsstring;
  options : Options.t
}.

(** How the promise returned by ky settles. *)
Inductive KyOutcome : Type :=
| Resolved (response : Response)
| Rejected (error : JsError).

Definition with_method (options : Options.t) (method : jsstring) : Options.t :=
  {| Options.method := Some method;
     Options.searchParams := Options.searchParams options;
     Options.headers := Options.headers options;
     Options.timeout := Options.timeout options;
     Options.retry := Options.retry options;
     Options.json := Options.json options;
     Options.body := Options.body options |}.

Definition opt_headers (options : option RequestOptions.t) : option Headers :=
  match options with Some o => RequestOptions.headers o | None => None end.

Definition opt_timeout (options : option RequestOptions.t) : option Z :=
  match options with Some o => RequestOptions.timeout o | None => None end.

Definition opt_retries (options : option RequestOptions.t) : option Z :=
  match options with Some o => RequestOptions.retries o | None => None end.

(** [s.split(sep)] for a separator of one code unit. *)
Fixpoint split (sep : N) (s : jsstring) : list jsstring :=
  match s with
  | [] => [[]]
  | c :: r =>
      if (c =? sep)%N then [] :: split sep r
      else
        match split sep r with
        | l :: ls => (c :: l) :: ls
        | [] => [[c]]
        end
  end.

(** The body of the [for (const line of lines)] loop of [stream]: the values
    it yields for one line. *)
Definition stream_line (line : jsstring) : list JsValue :=
  if nonempty (trim line) then
    if startsWith (js "data: ") line then
      let data := slice 6 line in
      if negb (str_eqb data (js "[DONE]")) then
        match JSON_parse data with
        | Some parsed => [parsed]
        | None => []
        end
      else []
    else
      match JSON_parse line with
      | Some parsed => [parsed]
      | None => []
      end
  else [].

(** The [while (true)] loop of [stream] over the chunks that are read before
    [done]: the values yielded, and the decoder and the buffer as they are
    left at the end. *)
Fixpoint stream_loop (decoder : TextDecoder.State) (buffer : jsstring)
    (chunks : list (list N)) : list JsValue * (TextDecoder.State * jsstring) :=
  match chunks with
  | [] => ([], (decoder, buffer))
  | value :: rest =>
      let (decoder, text) := TextDecoder.decode decoder value in
      let buffer := buffer ++ text in
      let lines := split 10 buffer in
      let buffer := last lines [] in
      let lines := removelast lines in
      let (later, final) := stream_loop decoder buffer rest in
      (flat_map stream_line lines ++ later, final)
  end.

(** A run of the generator [stream] consumed to its end: the values it
    yielded, in order, and the error it threw, if any. *)
Record StreamRun : Type := {
  yielded : list JsValue;
  thrown : option JsError
}.

Section WithBackend.

(** The ky instance as seen by the client: each invocation settles with a
    response or with a thrown error.  Every method of the client invokes it
    once; the method returns that invocation together with its own
    completion. *)
Variable ky : KyCall -> KyOutcome.

Definition makeRequest (c : SmtpClient) (method endpoint : jsstring)
    (options : Options.t) : KyCall * JsResult JsValue :=
  let authenticatedOptions := addAuthentication c options endpoint in
  let call := {| instance := kyInstance c; input := endpoint;
                 options := with_method authenticatedOptions method |} in
  (call,
   match ky call with
   | Resolved response =>
       match json_result response with
       | inl data =>
           if Response_ok response then Returns data
           else
             Throws (handleError
                       (SdkError (new_ApiException
                                    (JStr (js "Unexpected status code: "
                                             ++ Z_to_js (status response)))
                                    (Some (status response)) JUndefined))
                       endpoint)
       | inr info => Throws (handleError (HostError info None) endpoint)
       end
   | Rejected error => Throws (handleError error endpoint)
   end).

Definition get (c : SmtpClient) (endpoint : jsstring)
    (params : option (list (jsstring * JsValue)))
    (options : option RequestOptions.t) : KyCall * JsResult JsValue :=
  let searchParams := option_map new_URLSearchParams params in
  let kyOptions :=
    {| Options.method := None;
       Options.searchParams := searchParams;
       Options.headers := opt_headers options;
       Options.timeout := opt_timeout options;
       Options.retry := opt_retries options;
       Options.json := JUndefined;
       Options.body := None |} in
  makeRequest c (js "GET") endpoint kyOptions.

Definition post (c : SmtpClient) (endpoint : jsstring) (data : JsValue)
    (options : option RequestOptions.t) : KyCall * JsResult JsValue :=
  let kyOptions :=
    {| Options.method := None;
       Options.searchParams := None;
       Options.headers := opt_headers options;
       Options.timeout := opt_timeout options;
       Options.retry := opt_retries options;
       Options.json := data;
       Options.body := None |} in
  makeRequest c (js "POST") endpoint kyOptions.

(** The body of the loop over [Object.entries(data)] of [postMultipart]: an
    array gives one entry per item under the name [key[]]. *)
Definition add_field (formData : FormData) (entry : jsstring * JsValue) : FormData :=
  match snd entry with
  | JArr items =>
      fold_left (fun fd item => FormData_append fd (fst entry ++ js "[]") (ToString item))
        items formData
  | value => FormData_append formData (fst entry) (ToString value)
  end.

Definition or_default (s : option jsstring) (d : jsstring) : jsstring :=
  match s with
  | Some t => if nonempty t then t else d
  | None => d
  end.

(** The body of the loop over [files] of [postMultipart]. *)
Definition add_file (formData : FormData) (file : FileUpload) : FormData :=
  let blob :=
    match content file with
    | TextContent _ =>
        new_Blob (content file) (or_default (contentType file) (js "text/plain"))
    | BufferContent _ =>
        new_Blob (content file)
          (or_default (contentType file) (js "application/octet-stream"))
    end in
  FormData_append_blob formData (field file) blob (filename file).

Definition postMultipart (c : SmtpClient) (endpoint : jsstring)
    (data : option (list (jsstring * JsValue))) (files : option (list FileUpload))
    (options : option RequestOptions.t) : KyCall * JsResult JsValue :=
  let formData := [] in
  let formData :=
    match data with Some d => fold_left add_field d formData | None => formData end in
  let formData :=
    match files with Some fs => fold_left add_file fs formData | None => formData end in
  let kyOptions :=
    {| Options.method := None;
       Options.searchParams := None;
       Options.headers := Some (spread_headers (opt_headers options));
       Options.timeout := opt_timeout options;
       Options.retry := opt_retries options;
       Options.json := JUndefined;
       Options.body := Some formData |} in
  makeRequest c (js "POST") endpoint kyOptions.

Definition put (c : SmtpClient) (endpoint : jsstring) (data : JsValue)
    (options : option RequestOptions.t) : KyCall * JsResult JsValue :=
  let kyOptions :=
    {| Options.method := None;
       Options.searchParams := None;
       Options.headers := opt_headers options;
       Options.timeout := opt_timeout options;
       Options.retry := opt_retries options;
       Options.json := data;
       Options.body := None |} in
  makeRequest c (js "PUT") endpoint kyOptions.

Definition delete (c : SmtpClient) (endpoint : jsstring) (data : JsValue)
    (options : option RequestOptions.t) : KyCall * JsResult JsValue :=
  let kyOptions :=
    {| Options.method := None;
       Options.searchParams := None;
       Options.headers := opt_headers options;
       Options.timeout := opt_timeout options;
       Options.retry := opt_retries options;
       Options.json := data;
       Options.body := None |} in
  makeRequest c (js "DELETE") endpoint kyOptions.

Definition stream (c : SmtpClient) (endpoint : jsstring)
    (params : option (list (jsstring * JsValue)))
    (options : option RequestOptions.t) : KyCall * StreamRun :=
  let searchParams := option_map new_URLSearchParams params in
  let kyOptions :=
    {| Options.method := None;
       Options.searchParams := searchParams;
       Options.headers := opt_headers options;
       Options.timeout :=
         match opt_timeout options with
         | Some t => if (t =? 0)%Z then Some 60000%Z else Some t
         | None => Some 60000%Z
         end;
       Options.retry := None;
       Options.json := JUndefined;
       Options.body := None |} in
  let authenticatedOptions := addAuthentication c kyOptions endpoint in
  let call := {| instance := kyInstance c; input := endpoint;
                 options := with_method authenticatedOptions (js "get") |} in
  (call,
   match ky call with
   | Resolved response =>
       match body response with
       | None =>
           {| yielded := [];
              thrown :=
                Some (handleError
                        (SdkError (new_ApiException
                                     (JStr (js "Response body is empty"))
                                     None JUndefined))
                        endpoint) |}
       | Some reader =>
           {| yielded := fst (stream_loop TextDecoder.initial [] (reads reader));
              thrown :=
                match ending reader with
                | None => None
                | Some info => Some (handleError (HostError info None) endpoint)
                end |}
       end
   | Rejected error =>
       {| yielded := []; thrown := Some (handleError error endpoint) |}
   end).

End WithBackend.

End Client.
Import Client.

(* ===================================================================== *)
(** ** The HTTP backend *)
(* ===================================================================== *)

(** The [Headers] class of the Fetch standard, in which ky keeps the headers
    of a request.  It belongs to the platform and is not part of the
    sources.  A header list holds names in lower case and normalised
    values, in the order in which they were appended. *)
Module Fetch.

Local Open Scope N_scope.

Definition lower_name (name : jsstring) : jsstring :=
  map (fun c => if (65 <=? c) && (c <=? 90) then c + 32 else c) name.

(** A header name is a token: one or more of the characters below. *)
Definition is_token_char (c : N) : bool :=
  is_alnum c
  || existsb (N.eqb c) [33; 35; 36; 37; 38; 39; 42; 43; 45; 46; 94; 95; 96; 124; 126].

Definition is_header_name (name : jsstring) : bool :=
  nonempty name && forallb is_token_char name.

(** HTTP white space: tab, line feed, carriage return, space. *)
Definition is_http_whitespace (c : N) : bool :=
  (c =? 9) || (c =? 10) || (c =? 13) || (c =? 32).

Fixpoint strip_leading (value : jsstring) : jsstring :=
  match value with
  | c :: r => if is_http_whitespace c then strip_leading r else value
  | [] => []
  end.

(** A value is normalised by removing the white space at both ends. *)
Definition normalize (value : jsstring) : jsstring :=
  rev (strip_leading (rev (strip_leading value))).

(** A header value is a byte string without NUL, line feed and carriage
    return. *)
Definition is_header_value (value : jsstring) : bool :=
  forallb (fun c => (c <=? 255) && negb ((c =? 0) || (c =? 10) || (c =? 13))) value.

Definition HeaderList := list (jsstring * jsstring).

(** The values of the headers of a name, in order. *)
Definition values_of (name : jsstring) (held : HeaderList) : list jsstring :=
  map snd (filter (fun entry => str_eqb (fst entry) name) held).

(** [headers.get(name)] for a valid name: the values of the name joined by
    a comma and a space, [None] for [null]. *)
Definition get (name : jsstring) (held : HeaderList) : option jsstring :=
  match values_of (lower_name name) held with
  | [] => None
  | values => Some (join_with (js ", ") values)
  end.

(** [headers.append(name, value)]; [None] stands for the [TypeError] of a
    name or a value that is not valid. *)
Definition append (name value : jsstring) (held : HeaderList) : option HeaderList :=
  let value := normalize value in
  if is_header_name name && is_header_value value
  then Some (held ++ [(lower_name name, value)])
  else None.

(** The first header of the name takes the value, the others are removed. *)
Fixpoint replace_first (name value : jsstring) (held : HeaderList) : HeaderList :=
  match held with
  | [] => []
  | entry :: rest =>
      if str_eqb (fst entry) name
      then (name, value) :: filter (fun e => negb (str_eqb (fst e) name)) rest
      else entry :: replace_first name value rest
  end.

(** [headers.set(name, value)] *)
Definition set (name value : jsstring) (held : HeaderList) : option HeaderList :=
  let value := normalize value in
  if is_header_name name && is_header_value value
  then Some (if existsb (fun entry => str_eqb (fst entry) (lower_name name)) held
             then replace_first (lower_name name) value held
             else held ++ [(lower_name name, value)])
  else None.

(** [new Headers(init)] appends the properties of a record in their
    order. *)
Fixpoint fill (init : list (jsstring * jsstring)) (held : HeaderList)
    : option HeaderList :=
  match init with
  | [] => Some held
  | (name, value) :: rest =>
      match append name value held with
      | Some held' => fill rest held'
      | None => None
      end
  end.

Definition new_Headers (init : list (jsstring * jsstring)) : option HeaderList :=
  fill init [].

(** The order of names: byte by byte. *)
Fixpoint name_leb (a b : jsstring) : bool :=
  match a, b with
  | [], _ => true
  | _ :: _, [] => false
  | x :: a', y :: b' =>
      if x <? y then true else if y <? x then false else name_leb a' b'
  end.

Fixpoint insert (entry : jsstring * jsstring) (sorted : HeaderList) : HeaderList :=
  match sorted with
  | [] => [entry]
  | h :: t => if name_leb (fst entry) (fst h) then entry :: sorted else h :: insert entry t
  end.

Definition sort (held : HeaderList) : HeaderList := fold_right insert [] held.

(** [headers.entries()]: one pair for every name, the names in order, the
    values of a name combined. *)
Definition entries (held : HeaderList) : HeaderList :=
  sort (map (fun name => (name, join_with (js ", ") (values_of name held)))
          (nodup (list_eq_dec N.eq_dec) (map fst held))).

End Fetch.

(** ky is a dependency of the package and not part of its sources.  This
    module records the points of its documented contract on which the
    client relies: how [prefixUrl] and [input] are joined, that a response
    that is not [ok] is thrown as an [HTTPError], and how the headers of an
    invocation are merged into those of the instance. *)
Module Ky.

(** [mergeHeaders(source1, source2)] for a record [source2]: the headers of
    [source2] are collected in a [Headers] object of their own, and every
    entry of it is set on a copy of [source1]. *)
Definition mergeHeaders (source1 : Fetch.HeaderList) (source2 : Headers)
    : option Fetch.HeaderList :=
  match Fetch.new_Headers source2 with
  | Some source =>
      fold_left (fun result entry =>
                   match result with
                   | Some held => Fetch.set (fst entry) (snd entry) held
                   | None => None
                   end)
        (Fetch.entries source) (Some source1)
  | None => None
  end.

(** The headers of the request of an invocation: those of the instance,
    with those of the invocation merged into them; [None] when the merge
    throws and no request is made. *)
Definition request_headers (call : KyCall) : option Fetch.HeaderList :=
  match mergeHeaders [] (headers (instance call)) with
  | Some defaults => mergeHeaders defaults (spread_headers (Options.headers (options call)))
  | None => None
  end.

Definition leading_slash_error : JsError :=
  HostError {| err_name := js "Error";
               err_message :=
                 js "`input` must not begin with a slash when using `prefixUrl`" |}
            None.

(** With a [prefixUrl], an [input] that begins with a slash is refused;
    otherwise the prefix, with a slash appended unless it ends in one, is put
    before the input. *)
Definition join_url (prefixUrl input : jsstring) : JsResult jsstring :=
  if nonempty prefixUrl then
    if startsWith [47%N] input then Throws leading_slash_error
    else Returns ((if endsWith [47%N] prefixUrl then prefixUrl
                   else prefixUrl ++ [47%N]) ++ input)
  else Returns input.

(** [throwHttpErrors] is on by default. *)
Definition settle (response : Response) : KyOutcome :=
  if Response_ok response then Resolved response
  else Rejected (HTTPError response).

(** One invocation over a network [net], which gives the response finally
    obtained for a URL and an invocation. *)
Definition request (net : jsstring -> KyCall -> Response) (call : KyCall) : KyOutcome :=
  match join_url (prefixUrl (instance call)) (input call) with
  | Throws e => Rejected e
  | Returns url => settle (net url call)
  end.

End Ky.

(* ===================================================================== *)
(** ** The retry policy *)
(* ===================================================================== *)

Module RetryPolicy.

(** The retry loop around one request runs inside the HTTP backend (ky) and
    is not among the sources: the client only configures it, by the retryable
    methods, the trigger set and the limit that the constructor passes to
    [ky.create].  The loop below follows section 4.2 of the spec. *)

Definition lower (c : N) : N :=
  if ((65 <=? c) && (c <=? 90))%N then (c + 32)%N else c.

Definition retryable_method (cfg : RetryOptions) (method : jsstring) : bool :=
  existsb (str_eqb (map lower method)) (methods cfg).

Definition transient (cfg : RetryOptions) (status : Z) : bool :=
  existsb (Z.eqb status) (statusCodes cfg).

(** Modelled from the spec: the bound of the retry loop of the HTTP backend,
    which is not among the sources.  The spec bounds the number of attempts,
    the first included, and gives 3 as the default; that is the configured
    limit. *)
Definition max_attempts (cfg : RetryOptions) : nat := Z.to_nat (limit cfg).

(** Modelled from the spec: the retry loop of the HTTP backend, which is not
    among the sources.  For a method that is safe to repeat, a response
    whose status is in the trigger set is attempted again while the budget
    lasts; any other response, or a success, ends the call at once; when the
    budget is exhausted the last failure is surfaced.  [answers n] is the
    response to the underlying HTTP call number [n] (from 0); [made] calls
    were made so far.  The result is the outcome and the number of
    underlying HTTP calls. *)
Fixpoint run (cfg : RetryOptions) (method : jsstring) (answers : nat -> Response)
    (retries_left made : nat) : KyOutcome * nat :=
  let response := answers made in
  if Response_ok response then (Resolved response, S made)
  else
    match retries_left with
    | S k =>
        if retryable_method cfg method && transient cfg (status response)
        then run cfg method answers k (S made)
        else (Rejected (HTTPError response), S made)
    | O => (Rejected (HTTPError response), S made)
    end.

(** The configuration in force for an invocation: a per-call number replaces
    the limit. *)
Definition config_of (call : KyCall) : RetryOptions :=
  match Options.retry (options call) with
  | Some n => {| limit := n; methods := methods (retry (instance call));
                 statusCodes := statusCodes (retry (instance call)) |}
  | None => retry (instance call)
  end.

Definition method_of (call : KyCall) : jsstring :=
  match Options.method (options call) with Some m => m | None => js "get" end.

(** The configuration that the constructor gives to [ky.create]. *)
Definition default_config : RetryOptions := retry (ky_create []).

Definition execute (answers : nat -> Response) (call : KyCall) : KyOutcome * nat :=
  let cfg := config_of call in
  run cfg (method_of call) answers (max_attempts cfg - 1) 0.

Definition backend (answers : nat -> Response) (call : KyCall) : KyOutcome :=
  fst (execute answers call).

Definition calls_made (answers : nat -> Response) (call : KyCall) : nat :=
  snd (execute answers call).

End RetryPolicy.

(* ===================================================================== *)
(** ** Vocabulary of the properties *)
(* ===================================================================== *)

Module Vocabulary.

(** The backend answers [call] with a response whose body delivers [chunks]
    and then ends. *)
Definition feeds (ky : KyCall -> KyOutcome) (call : KyCall) (chunks : list (list N)) : Prop :=
  exists response,
    ky call = Resolved response
    /\ body response = Some {| reads := chunks; ending := None |}.

(** The complete lines of a text: those closed by a line feed. *)
Definition complete_lines (text : jsstring) : list jsstring :=
  removelast (split 10 text).

(** A line holds no line feed. *)
Definition no_line_feed (line : jsstring) : Prop := ~ In 10%N line.

(** The text made of the given lines, each closed by a line feed. *)
Definition unlines (lines : list jsstring) : jsstring :=
  List.concat (map (fun line => line ++ [10%N]) lines).

(** The record payload of a line: what follows the prefix [data: ] when the
    line has it, the whole line otherwise. *)
Definition payload (line : jsstring) : jsstring :=
  if startsWith (js "data: ") line then slice 6 line else line.

(** The lines of a list that parse as JSON, parsed, in order. *)
Definition parsed_records (lines : list jsstring) : list JsValue :=
  flat_map (fun line =>
              match JSON_parse (payload line) with
              | Some record => [record]
              | None => []
              end) lines.

(** The text that a new decoder makes of a sequence of bytes. *)
Definition decoded_text (bytes : list N) : jsstring :=
  snd (TextDecoder.decode TextDecoder.initial bytes).

(** The values that a stream yields when its body delivers [chunks]. *)
Definition records_of (chunks : list (list N)) : list JsValue :=
  fst (stream_loop TextDecoder.initial [] chunks).

(** A request made through one of the methods of the client. *)
Inductive Request : Type :=
| Get (endpoint : jsstring) (params : option (list (jsstring * JsValue)))
      (options : option RequestOptions.t)
| Post (endpoint : jsstring) (data : JsValue) (options : option RequestOptions.t)
| PostMultipart (endpoint : jsstring) (data : option (list (jsstring * JsValue)))
      (files : option (list FileUpload)) (options : option RequestOptions.t)
| Put (endpoint : jsstring) (data : JsValue) (options : option RequestOptions.t)
| Delete (endpoint : jsstring) (data : JsValue) (options : option RequestOptions.t)
| Stream (endpoint : jsstring) (params : option (list (jsstring * JsValue)))
      (options : option RequestOptions.t).

(** The invocation of ky that a request makes. *)
Definition issued (ky : KyCall -> KyOutcome) (c : SmtpClient) (r : Request) : KyCall :=
  match r with
  | Get e p o => fst (get ky c e p o)
  | Post e d o => fst (post ky c e d o)
  | PostMultipart e d f o => fst (postMultipart ky c e d f o)
  | Put e d o => fst (put ky c e d o)
  | Delete e d o => fst (delete ky c e d o)
  | Stream e p o => fst (stream ky c e p o)
  end.

(** The headers that the caller gave with a request. *)
Definition caller_headers (r : Request) : Headers :=
  spread_headers
    (opt_headers
       match r with
       | Get _ _ o | Post _ _ o | PostMultipart _ _ _ o
       | Put _ _ o | Delete _ _ o | Stream _ _ o => o
       end).

(** The headers of an invocation of ky. *)
Definition sent_headers (call : KyCall) : Headers :=
  spread_headers (Options.headers (options call)).

(** A name is a spelling of Authorization: it differs from it at most in the
    case of its letters. *)
Definition spells_authorization (name : jsstring) : bool :=
  str_eqb (Fetch.lower_name name) (js "authorization").

(** The normalised values of the headers of a record whose name is a
    spelling of Authorization, in the order of the record. *)
Definition authorization_values (h : Headers) : list jsstring :=
  map (fun entry => Fetch.normalize (snd entry))
    (filter (fun entry => spells_authorization (fst entry)) h).

(** Those given under a spelling other than [Authorization] itself. *)
Definition other_spellings (h : Headers) : list jsstring :=
  authorization_values
    (filter (fun entry => negb (str_eqb (js "Authorization") (fst entry))) h).

(** The headers that an instance made by [ky.create] puts on every
    request. *)
Definition default_request_headers : Fetch.HeaderList :=
  [(js "accept", js "application/json");
   (js "content-type", js "application/json");
   (js "user-agent", js "@kirimemail/smtp-sdk/1.0.0")].

(** The Authorization header of the request of an invocation, if a request
    is made and carries one. *)
Definition authorization_on_the_wire (call : KyCall) : option jsstring :=
  match Ky.request_headers call with
  | Some wire => Fetch.get (js "Authorization") wire
  | None => None
  end.

(** The query string of an invocation of ky, when it has one. *)
Definition query_string (call : KyCall) : option jsstring :=
  option_map URLSearchParams_toString (Options.searchParams (options call)).

(** The name-value pairs that a form-urlencoded parser finds in a query
    string, before it decodes them: the pieces between ampersands, the empty
    ones left out, each cut at its first equals sign. *)
Definition query_pairs (query : jsstring) : list (jsstring * jsstring) :=
  map (fun piece =>
         match split 61 piece with
         | name :: rest => (name, join_with [61%N] rest)
         | [] => (piece, [])
         end)
    (filter nonempty (split 38 query)).

(** A response with a JSON body. *)
Definition json_response (status : Z) (text : jsstring) (data : JsValue) : Response :=
  {| status := status; statusText := text; json_result := inl data; body := None |}.

(** A response whose body delivers chunks. *)
Definition stream_response (chunks : list (list N)) : Response :=
  {| status := 200; statusText := js "OK";
     json_result := inr {| err_name := js "SyntaxError";
                           err_message := js "Unexpected token" |};
     body := Some {| reads := chunks; ending := None |} |}.

End Vocabulary.
Import Vocabulary.


(* ===================================================================== *)
(** ** Sample values *)
(* ===================================================================== *)

Module Samples.

Definition client : SmtpClient :=
  new_SmtpClient (Some (js "testuser")) (Some (js "testtoken")) None.

Definition anonymous : SmtpClient := new_SmtpClient None None None.

Definition no_options : Options.t :=
  {| Options.method := None; Options.searchParams := None;
     Options.headers := None; Options.timeout := None; Options.retry := None;
     Options.json := JUndefined; Options.body := None |}.

(** 404 with a JSON body that holds the message of the server *)
Definition not_found : Response :=
  json_response 404 (js "Not Found")
    (JObj [(js "success", JBool false);
           (js "message", JStr (js "Domain not found"))]).

(** 422 with a message and a map of field errors *)
Definition invalid : Response :=
  json_response 422 (js "Unprocessable Entity")
    (JObj [(js "success", JBool false);
           (js "message", JStr (js "The given data was invalid."));
           (js "errors",
            JObj [(js "email", JArr [JStr (js "The email field is required.")])])]).

Definition bad_request : Response :=
  json_response 400 (js "Bad Request") (JObj [(js "message", JStr (js "Bad request"))]).

Definition unavailable : Response :=
  json_response 503 (js "Service Unavailable") JNull.

Definition success : Response :=
  json_response 200 (js "OK") (JObj [(js "success", JBool true)]).

(** A network on which the list of domains is served at one URL. *)
Definition net (url : jsstring) (call : KyCall) : Response :=
  if str_eqb url (js "https://smtp-app.kirim.email/api/domains")
  then success else not_found.

(** The answers of a server that is unavailable twice and then succeeds. *)
Definition third_time_lucky (n : nat) : Response :=
  if Nat.ltb n 2 then unavailable else success.

(** The record {a: n} *)
Definition record_a (n : Z) : JsValue := JObj [(js "a", JInt n)].

End Samples.
Import Samples.

(* ===================================================================== *)
(** ** The rest of the client and of the exceptions *)
(* ===================================================================== *)

Module ClientHelpers.

(** The longest run of code units other than the slash at the head of a
    string: what [[^\/]+] matches there. *)
Fixpoint take_segment (s : jsstring) : jsstring :=
  match s with
  | [] => []
  | c :: r => if (c =? 47)%N then [] else c :: take_segment r
  end.

(** [endpoint.match(/\/api\/domains\/([^\/]+)/)]: the first place where the
    literal is followed by at least one code unit other than the slash; the
    result is the captured run, [None] for [null]. *)
Fixpoint extractDomainFromEndpoint (endpoint : jsstring) : option jsstring :=
  match endpoint with
  | [] => None
  | _ :: rest =>
      if startsWith (js "/api/domains/") endpoint then
        match take_segment (skipn 13 endpoint) with
        | [] => extractDomainFromEndpoint rest
        | segment => Some segment
        end
      else extractDomainFromEndpoint rest
  end.

(** The clients that a program can hold: made by the constructor, then
    changed by the two setters. *)
Inductive reachable : SmtpClient -> Prop :=
| reach_new : forall username token baseUrl,
    reachable (new_SmtpClient username token baseUrl)
| reach_setBaseUrl : forall c baseUrl,
    reachable c -> reachable (setBaseUrl c baseUrl)
| reach_setBasicAuth : forall c username token,
    reachable c -> reachable (setBasicAuth c username token).

(** A character of the base64 alphabet, the padding sign included. *)
Definition base64_char (x : N) : Prop :=
  (65 <= x <= 90 \/ 97 <= x <= 122 \/ 48 <= x <= 57 \/ x = 43 \/ x = 47 \/ x = 61)%N.

(** An error named [HTTPError] carries a response, as ky's does. *)
Definition carries_response (error : JsError) : Prop :=
  error_name error = js "HTTPError" ->
  exists info response, error = HostError info (Some response).

(** The backend answers as ky and fetch do: a rejection named [HTTPError]
    carries its response, and the error of a body that does not parse is
    not named [HTTPError]. *)
Definition plausible (outcome : KyOutcome) : Prop :=
  match outcome with
  | Rejected error => carries_response error
  | Resolved response =>
      match json_result response with
      | inl _ => True
      | inr info => err_name info <> js "HTTPError"
      end
  end.

End ClientHelpers.
Import ClientHelpers.

(** The methods of [ApiException] ([src/exceptions/ApiException.ts]). *)
Module ApiExceptionMethods.

(** The keys ["0"], ["1"], ... of an array or a string of length [n]. *)
Definition index_keys (n : nat) : list jsstring :=
  map (fun i => N_to_js (N.of_nat i)) (seq 0 n).

(** [Object.keys(v)] for a value that is neither [undefined] nor [null]. *)
Definition Object_keys (v : JsValue) : list jsstring :=
  match v with
  | JObj props => map fst props
  | JArr items => index_keys (List.length items)
  | JStr s => index_keys (List.length s)
  | _ => []
  end.

(** [Object.values(v)] for a value that is neither [undefined] nor [null]. *)
Definition Object_values (v : JsValue) : list JsValue :=
  match v with
  | JObj props => map snd props
  | JArr items => items
  | JStr s => map (fun c => JStr [c]) s
  | _ => []
  end.

(** [xs.flat()] *)
Definition flat (xs : list JsValue) : list JsValue :=
  flat_map (fun x => match x with JArr items => items | _ => [x] end) xs.

Definition hasErrors (e : Exception) : bool :=
  truthy (errors e) && (0 <? List.length (Object_keys (errors e)))%nat.

Definition getErrorMessages (e : Exception) : list JsValue :=
  if negb (truthy (errors e)) then [] else flat (Object_values (errors e)).

(** The members that every object inherits from [Object.prototype]. *)
Definition inherited_names : list jsstring :=
  [js "constructor"; js "__defineGetter__"; js "__defineSetter__";
   js "hasOwnProperty"; js "__lookupGetter__"; js "__lookupSetter__";
   js "isPrototypeOf"; js "propertyIsEnumerable"; js "toString";
   js "valueOf"; js "__proto__"; js "toLocaleString"].

(** [this.errors?.[field] || []].  The answer is given when [errors] is
    absent or a plain object and the field is an own property or is not
    inherited; [None] stands for the other reads, whose answer (an inherited
    method, a member of an array or of a string) is outside [JsValue]. *)
Definition getErrorForField (e : Exception) (field : jsstring) : option JsValue :=
  match errors e with
  | JUndefined | JNull => Some (JArr [])
  | JObj props =>
      match lookup field props with
      | Some v => Some (or_else v (JArr []))
      | None =>
          if existsb (str_eqb field) inherited_names then None
          else Some (JArr [])
      end
  | _ => None
  end.

End ApiExceptionMethods.

(** The pagination model ([src/models/Pagination.ts]).  Page numbers and
    counts are integers; products and quotients are rounded to the nearest
    number, so that they are exact up to [Number.MAX_SAFE_INTEGER] only. *)
Module Pagination.

Record PaginationData : Type := {
  total : option Z;
  per_page : option Z;
  current_page : option Z;
  last_page : option Z;
  count : option Z;
  offset : option Z;
  limit : option Z
}.

Record t : Type := {
  total_ : option Z;
  perPage : option Z;
  currentPage : option Z;
  lastPage : option Z;
  count_ : option Z;
  offset_ : option Z;
  limit_ : option Z
}.

(** [new Pagination(data)] *)
Definition new_Pagination (data : PaginationData) : t :=
  {| total_ := total data; perPage := per_page data;
     currentPage := current_page data; lastPage := last_page data;
     count_ := count data; offset_ := offset data; limit_ := limit data |}.

Definition fromAPI (data : PaginationData) : t := new_Pagination data.

Definition toJSON (p : t) : PaginationData :=
  {| total := total_ p; per_page := perPage p; current_page := currentPage p;
     last_page := lastPage p; count := count_ p; offset := offset_ p;
     limit := limit_ p |}.

(** [!x] for an optional number *)
Definition absent (x : option Z) : bool :=
  match x with Some z => (z =? 0)%Z | None => true end.

(** [x || d] for an optional number *)
Definition or_number (x : option Z) (d : Z) : Z :=
  match x with Some z => if (z =? 0)%Z then d else z | None => d end.







Definition getTotalPages (p : t) : Z := or_number (lastPage p) 0.

Definition getTotalItems (p : t) : Z := or_number (total_ p) 0.

Definition getItemsPerPage (p : t) : Z :=
  or_number (perPage p) (or_number (limit_ p) 0).

Definition getCurrentPageItems (p : t) : Z := or_number (count_ p) 0.

(** [(page - 1) * itemsPerPage], each operation rounded as the arithmetic
    of numbers does. *)
Definition getOffsetForPage (p : t) (page : Z) : Double.number :=
  let itemsPerPage := getItemsPerPage p in
  if (itemsPerPage <=? 0)%Z then Double.Int 0
  else
    match Double.round (page - 1) with
    | Double.Int before => Double.round (before * itemsPerPage)
    | Double.Inf negative => Double.Inf negative
    end.

(** [Math.floor(itemIndex / itemsPerPage) + 1], the division and the
    addition rounded as the arithmetic of numbers does. *)
Definition getPageForItemIndex (p : t) (itemIndex : Z) : Double.number :=
  let itemsPerPage := getItemsPerPage p in
  if (itemsPerPage <=? 0)%Z then Double.Int 1
  else
    match Double.floor_div itemIndex itemsPerPage with
    | Double.Int pages => Double.round (pages + 1)
    | Double.Inf negative => Double.Inf negative
    end.

(** [Number.MAX_SAFE_INTEGER] *)
Definition MAX_SAFE_INTEGER : Z := (2 ^ 53 - 1)%Z.

Definition isValid (p : t) : bool :=
  negb (absent (currentPage p)) && negb (absent (perPage p))
  && negb (absent (total_ p)).

End Pagination.

(** The message API ([src/api/MessagesApi.ts]). *)
Module MessagesApi.

(** The private [handleError] of the API classes: what it throws. *)
Definition handleError (error : JsError) : JsError :=
  match error with
  | SdkError _ => error
  | HostError _ _ =>
      SdkError (new_ApiException (JStr (error_message error)) None JUndefined)
  end.

Definition rethrow (r : JsResult JsValue) : JsResult JsValue :=
  match r with
  | Returns response => Returns response
  | Throws error => Throws (handleError error)
  end.

Section WithBackend.

Variable ky : KyCall -> KyOutcome.

Definition sendMessage (c : SmtpClient) (domain : jsstring) (message : JsValue)
    : KyCall * JsResult JsValue :=
  let run := post ky c (js "/api/domains/" ++ domain ++ js "/message") message None in
  (fst run, rethrow (snd run)).

Definition sendMessageWithAttachments (c : SmtpClient) (domain : jsstring)
    (message : list (jsstring * JsValue)) (files : list FileUpload)
    : KyCall * JsResult JsValue :=
  let run := postMultipart ky c (js "/api/domains/" ++ domain ++ js "/message")
               (Some message) (Some files) None in
  (fst run, rethrow (snd run)).

Definition sendBulkMessage (c : SmtpClient) (domain : jsstring) (message : JsValue)
    : KyCall * JsResult JsValue :=
  let run := post ky c (js "/api/domains/" ++ domain ++ js "/message") message None in
  (fst run, rethrow (snd run)).

Definition sendTemplateMessage (c : SmtpClient) (domain : jsstring) (template : JsValue)
    : KyCall * JsResult JsValue :=
  let run := post ky c (js "/api/domains/" ++ domain ++ js "/message/template")
               template None in
  (fst run, rethrow (snd run)).

End WithBackend.

(** The result of [validateMessage]: [valid], and [errors] when there are
    some. *)
Record Validation : Type := {
  valid : bool;
  validation_errors : option (list jsstring)
}.

Definition push_unless (ok : bool) (text : jsstring) (errors : list jsstring)
    : list jsstring :=
  if ok then errors else errors ++ [text].

(** The [TypeError] of reading a property of [undefined] or of [null]. *)
Definition TypeError_reading (what prop : jsstring) : JsError :=
  HostError {| err_name := js "TypeError";
               err_message := js "Cannot read properties of " ++ what
                                ++ js " (reading '" ++ prop ++ js "')" |} None.

(** The checks of [validateMessage] on a message that is an object or a
    primitive value. *)
Definition check_message (message : JsValue) : Validation :=
  let errors := [] in
  let errors := push_unless (truthy (get_prop message (js "from")))
                  (js "From address is required") errors in
  let errors := push_unless (truthy (get_prop message (js "to")))
                  (js "To address is required") errors in
  let errors := push_unless (truthy (get_prop message (js "subject")))
                  (js "Subject is required") errors in
  let errors := push_unless (truthy (get_prop message (js "text"))
                             || truthy (get_prop message (js "html")))
                  (js "Either text or HTML content is required") errors in
  if (0 <? List.length errors)%nat
  then {| valid := false; validation_errors := Some errors |}
  else {| valid := true; validation_errors := None |}.

(** [validateMessage(message)]: the promise is rejected with the
    [TypeError] of the first read, [message.from], when the message is
    [undefined] or [null]. *)
Definition validateMessage (message : JsValue) : JsResult Validation :=
  match message with
  | JUndefined => Throws (TypeError_reading (js "undefined") (js "from"))
  | JNull => Throws (TypeError_reading (js "null") (js "from"))
  | _ => Returns (check_message message)
  end.

Definition createFileUpload (field filename : jsstring) (content : FileContent)
    (contentType : option jsstring) : FileUpload :=
  {| field := field; filename := filename; content := content;
     contentType := contentType |}.

End MessagesApi.

(** The suppression model ([src/models/Suppression.ts]): the fields that its
    classification reads.  Times are whole seconds. *)
Module Suppression.

Record t : Type := {
  type : option jsstring;
  source : option jsstring;
  createdAt : option Z
}.

(** [x === 'text'] for an optional string *)
Definition equals (x : option jsstring) (text : string) : bool :=
  match x with Some s => str_eqb s (js text) | None => false end.

Definition isBounce (s : t) : bool :=
  equals (type s) "bounce" || equals (type s) "hard_bounce" || equals (type s) "soft_bounce".

Definition isSpamComplaint (s : t) : bool :=
  equals (type s) "spam_complaint" || equals (type s) "spam".

Definition isUnsubscribe (s : t) : bool :=
  equals (type s) "unsubscribe" || equals (type s) "unsub".

Definition isManual (s : t) : bool :=
  equals (source s) "manual" || equals (source s) "admin".

Definition isAutomatic (s : t) : bool :=
  equals (source s) "automatic" || equals (source s) "system".

Inductive Category : Type := bounce | spam | unsubscribe | other.

Definition getCategory (s : t) : Category :=
  if isBounce s then bounce
  else if isSpamComplaint s then spam
  else if isUnsubscribe s then unsubscribe
  else other.

Definition isPermanent (s : t) : bool :=
  equals (type s) "hard_bounce" || isSpamComplaint s.

Definition isTemporary (s : t) : bool := equals (type s) "soft_bounce".

Inductive Severity : Type := high | medium | low.

Definition getSeverity (s : t) : Severity :=
  if isSpamComplaint s || equals (type s) "hard_bounce" then high
  else if equals (type s) "soft_bounce" then medium
  else low.

Definition canBeRemoved (s : t) : bool := isTemporary s || isManual s.



End Suppression.

(* ===================================================================== *)
(** * Properties *)
(* ===================================================================== *)

(** ** Strings and records *)

Module StringFacts.

Lemma str_eqb_refl : forall s, str_eqb s s = true.
Proof.
  induction s as [|c s IH]; simpl; [reflexivity|].
  now rewrite N.eqb_refl, IH.
Qed.

Lemma str_eqb_eq : forall a b, str_eqb a b = true <-> a = b.
Proof.
  induction a as [|x a IH]; destruct b as [|y b]; simpl; split; intro H;
    try reflexivity; try discriminate.
  - apply andb_true_iff in H. destruct H as [Hx Hr].
    apply N.eqb_eq in Hx. apply IH in Hr. now subst.
  - inversion H; subst. now rewrite N.eqb_refl, str_eqb_refl.
Qed.

Lemma lookup_set_prop_same :
  forall (A : Type) k (v : A) props, lookup k (set_prop k v props) = Some v.
Proof.
  intros A k v props. induction props as [|[k' v'] rest IH]; simpl.
  - now rewrite str_eqb_refl.
  - destruct (str_eqb k k') eqn:E; simpl; rewrite E; [reflexivity | exact IH].
Qed.

Lemma lookup_in_nodup :
  forall (A : Type) (props : list (jsstring * A)) k v,
    NoDup (map fst props) -> In (k, v) props -> lookup k props = Some v.
Proof.
  intros A props k v Hnd Hin. induction props as [|[k0 v0] rest IH]; [contradiction|].
  simpl in *. inversion Hnd as [|? ? Hnotin Hnd']; subst.
  destruct Hin as [Heq|Hin].
  - inversion Heq; subst. now rewrite str_eqb_refl.
  - destruct (str_eqb k k0) eqn:E.
    + apply str_eqb_eq in E. subst k0. exfalso. apply Hnotin.
      change k with (fst (k, v)). now apply in_map.
    + now apply IH.
Qed.

End StringFacts.
Import StringFacts.

(* --------------------------------------------------------------------- *)
(** ** Error classification *)

Module ErrorFacts.

(** What [handleError] throws for an [HTTPError]: the message is always the
    fallback text, because the body is read from a promise object. *)
Lemma handleError_HTTPError :
  forall response endpoint,
    handleError (HTTPError response) endpoint =
    let message := JStr (js "Unknown API error") in
    let status := status response in
    if (status =? 400)%Z || (status =? 422)%Z then
      SdkError (new_ValidationException message JUndefined)
    else if (status =? 401)%Z || (status =? 403)%Z then
      SdkError (new_AuthenticationException message)
    else if (status =? 404)%Z then SdkError (new_NotFoundException message)
    else if (status >=? 500)%Z then SdkError (new_ServerException message)
    else SdkError (new_ApiException message (Some status) JUndefined).
Proof. intros. reflexivity. Qed.

Lemma settle_rejects :
  forall response,
    (400 <= status response)%Z -> Ky.settle response = Rejected (HTTPError response).
Proof.
  intros response H. unfold Ky.settle, Response_ok.
  replace (status response <=? 299)%Z with false by (symmetry; apply Z.leb_gt; lia).
  now rewrite andb_false_r.
Qed.

Lemma makeRequest_rejected :
  forall ky c method endpoint options error,
    ky (fst (makeRequest ky c method endpoint options)) = Rejected error ->
    snd (makeRequest ky c method endpoint options) = Throws (handleError error endpoint).
Proof.
  intros ky c method endpoint options error H.
  unfold makeRequest in *. simpl in *. now rewrite H.
Qed.

Ltac status_cases s :=
  destruct (s =? 400)%Z eqn:E400; destruct (s =? 422)%Z eqn:E422;
  destruct (s =? 401)%Z eqn:E401; destruct (s =? 403)%Z eqn:E403;
  destruct (s =? 404)%Z eqn:E404; destruct (s >=? 500)%Z eqn:E500;
  rewrite ?Z.eqb_eq, ?Z.eqb_neq, ?Z.geb_leb, ?Z.leb_le, ?Z.leb_gt in *;
  simpl.

(** C1.  A response with status 400 or above, received by a request made
    through [makeRequest], makes the call throw (it returns no value) an
    exception whose class is fixed by the status alone: 400 and 422 give a
    ValidationException, 401 and 403 an AuthenticationException, 404 a
    NotFoundException, every status from 500 a ServerException, and every
    other status a plain ApiException that carries the status. *)
Theorem makeRequest_classifies_by_status :
  forall ky c method endpoint options response,
    ky (fst (makeRequest ky c method endpoint options)) = Ky.settle response ->
    (400 <= status response)%Z ->
    exists e,
      snd (makeRequest ky c method endpoint options) = Throws (SdkError e)
      /\ (status response = 400 \/ status response = 422 ->
          class e = ValidationException)%Z
      /\ (status response = 401 \/ status response = 403 ->
          class e = AuthenticationException)%Z
      /\ (status response = 404 -> class e = NotFoundException)%Z
      /\ (500 <= status response -> class e = ServerException)%Z
      /\ (status response <> 400 -> status response <> 422 ->
          status response <> 401 -> status response <> 403 ->
          status response <> 404 -> status response < 500 ->
          class e = ApiException /\ statusCode e = Some (status response))%Z.
Proof.
  intros ky c method endpoint options response Hky Hstatus.
  rewrite (settle_rejects _ Hstatus) in Hky.
  rewrite (makeRequest_rejected _ _ _ _ _ _ Hky), handleError_HTTPError.
  cbv zeta.
  status_cases (status response);
    eexists; (split; [reflexivity|]); simpl;
    repeat split; intros; try reflexivity; try lia.
Qed.

(** C10.  The status code of a thrown exception is a constant of its class:
    422 for a ValidationException (also when the response had status 400),
    401 for an AuthenticationException (also for 403), 404 for a
    NotFoundException, 500 for a ServerException (for every status from 500);
    only a plain ApiException carries the status that was received. *)
Theorem statusCode_is_a_class_constant :
  forall ky c method endpoint options response,
    ky (fst (makeRequest ky c method endpoint options)) = Rejected (HTTPError response) ->
    exists e,
      snd (makeRequest ky c method endpoint options) = Throws (SdkError e)
      /\ (class e = ValidationException -> statusCode e = Some 422)%Z
      /\ (class e = AuthenticationException -> statusCode e = Some 401)%Z
      /\ (class e = NotFoundException -> statusCode e = Some 404)%Z
      /\ (class e = ServerException -> statusCode e = Some 500)%Z
      /\ (class e = ApiException -> statusCode e = Some (status response))
      /\ (status response = 400 ->
          class e = ValidationException /\ statusCode e = Some 422)%Z
      /\ (status response = 403 ->
          class e = AuthenticationException /\ statusCode e = Some 401)%Z
      /\ (500 <= status response ->
          class e = ServerException /\ statusCode e = Some 500)%Z.
Proof.
  intros ky c method endpoint options response Hky.
  rewrite (makeRequest_rejected _ _ _ _ _ _ Hky), handleError_HTTPError.
  cbv zeta.
  status_cases (status response);
    eexists; (split; [reflexivity|]); simpl;
    repeat split; intros; try reflexivity; try discriminate; try lia.
Qed.

Lemma makeRequest_classifies_by_status_witness :
  (400 <= status not_found)%Z
  /\ exists e,
       snd (makeRequest (fun _ => Ky.settle not_found) client (js "GET")
              (js "api/domains/example.com") no_options) = Throws (SdkError e)
       /\ class e = NotFoundException.
Proof.
  assert (H : (400 <= status not_found)%Z) by (simpl; lia).
  split; [exact H|].
  destruct (@makeRequest_classifies_by_status (fun _ => Ky.settle not_found)
              client (js "GET") (js "api/domains/example.com") no_options
              not_found eq_refl H) as (e & He & _ & _ & H404 & _).
  exists e. split; [exact He | now apply H404].
Defined.

Lemma statusCode_is_a_class_constant_witness :
  exists e,
    snd (makeRequest (fun _ => Rejected (HTTPError bad_request)) client (js "POST")
           (js "api/domains") no_options) = Throws (SdkError e)
    /\ class e = ValidationException
    /\ statusCode e = Some 422%Z.
Proof.
  destruct (@statusCode_is_a_class_constant
              (fun _ => Rejected (HTTPError bad_request))
              client (js "POST") (js "api/domains") no_options
              bad_request eq_refl) as (e & He & _ & _ & _ & _ & _ & H400 & _).
  exists e. split; [exact He | now apply H400].
Defined.

(** C2 (defect of the code).  The server answers 404 with a JSON body whose
    message is "Domain not found", or 422 with a message and a map of field
    errors.  The exception thrown carries neither: its message is the
    fallback text "Unknown API error" and its field errors are undefined,
    because [handleError] reads them from the promise that
    [response.json()] returns instead of from the parsed body. *)
Theorem server_message_is_not_carried :
  snd (get (fun _ => Ky.settle not_found) client
         (js "api/domains/example.com") None None)
  = Throws (SdkError {| class := NotFoundException;
                        message := js "Unknown API error";
                        statusCode := Some 404%Z;
                        errors := JUndefined |})
  /\ snd (post (fun _ => Ky.settle invalid) client
            (js "api/domains/example.com/credentials") (JObj []) None)
     = Throws (SdkError {| class := ValidationException;
                           message := js "Unknown API error";
                           statusCode := Some 422%Z;
                           errors := JUndefined |}).
Proof. split; reflexivity. Qed.

End ErrorFacts.

(* --------------------------------------------------------------------- *)
(** ** The stream decoder *)

Module JsonFacts.

Local Open Scope N_scope.

Lemma js_space_not_value_start :
  forall c, is_js_space c = true ->
    (c =? 123) = false /\ (c =? 91) = false /\ (c =? 34) = false
    /\ (c =? 45) = false /\ is_digit c = false /\ (c =? 116) = false
    /\ (c =? 102) = false /\ (c =? 110) = false /\ (c =? 100) = false.
Proof.
  intros c H. unfold is_js_space in H.
  rewrite !orb_true_iff, !andb_true_iff, !N.eqb_eq, !N.leb_le in H.
  unfold is_digit.
  repeat split; try (apply N.eqb_neq; lia).
  apply andb_false_iff. rewrite !N.leb_gt. lia.
Qed.

Lemma parse_value_spaces :
  forall s, forallb is_js_space s = true ->
    forall fuel, parse_value fuel (skip_ws s) = None.
Proof.
  induction s as [|c r IH]; intros Hs fuel.
  - destruct fuel; reflexivity.
  - simpl in Hs. apply andb_true_iff in Hs. destruct Hs as [Hc Hr].
    simpl. destruct (is_ws c); [now apply IH|].
    destruct (js_space_not_value_start c Hc)
      as (E1 & E2 & E3 & E4 & E5 & E6 & E7 & E8 & _).
    destruct fuel as [|fuel]; [reflexivity|].
    cbn [parse_value]. now rewrite E1, E2, E3, E4, E5, E6, E7, E8.
Qed.

Lemma JSON_parse_spaces :
  forall s, forallb is_js_space s = true -> JSON_parse s = None.
Proof.
  intros s H. unfold JSON_parse. now rewrite parse_value_spaces.
Qed.

Lemma trimStart_nil :
  forall s, trimStart s = [] -> forallb is_js_space s = true.
Proof.
  induction s as [|c r IH]; simpl; [reflexivity|].
  destruct (is_js_space c); [exact IH | discriminate].
Qed.

Lemma trimStart_spaces :
  forall s, forallb is_js_space s = true -> trimStart s = [].
Proof.
  induction s as [|c r IH]; simpl; [reflexivity|].
  destruct (is_js_space c); [exact IH | discriminate].
Qed.

Lemma trimStart_idem : forall s, trimStart (trimStart s) = trimStart s.
Proof.
  induction s as [|c r IH]; simpl; [reflexivity|].
  destruct (is_js_space c) eqn:E; [exact IH|]. simpl. now rewrite E.
Qed.

Lemma forallb_rev :
  forall (A : Type) (f : A -> bool) l, forallb f (rev l) = forallb f l.
Proof.
  intros A f l. induction l as [|x l IH]; simpl; [reflexivity|].
  rewrite forallb_app, IH. simpl. rewrite andb_true_r. apply andb_comm.
Qed.

(** A string that [trim] empties consists of white space only. *)
Lemma trim_nil : forall s, trim s = [] -> forallb is_js_space s = true.
Proof.
  intros s H. unfold trim in H.
  apply (f_equal (@rev N)) in H. rewrite rev_involutive in H. simpl in H.
  apply trimStart_nil in H. rewrite forallb_rev in H.
  apply trimStart_spaces in H. rewrite trimStart_idem in H.
  now apply trimStart_nil.
Qed.

End JsonFacts.

Module StreamFacts.

Import JsonFacts.

(** The values yielded for a line: its payload when it parses as JSON.  The
    tests for a blank line and for the sentinel only set aside lines that do
    not parse. *)
Lemma stream_line_spec :
  forall line,
    stream_line line =
    match JSON_parse (payload line) with
    | Some record => [record]
    | None => []
    end.
Proof.
  intro line. unfold stream_line, payload.
  destruct (nonempty (trim line)) eqn:T.
  - destruct (startsWith (js "data: ") line); [|reflexivity].
    destruct (str_eqb (slice 6 line) (js "[DONE]")) eqn:D; [|reflexivity].
    apply str_eqb_eq in D. rewrite D. reflexivity.
  - assert (Hs : forallb is_js_space line = true).
    { apply trim_nil. destruct (trim line); [reflexivity | discriminate]. }
    assert (Hp : startsWith (js "data: ") line = false).
    { destruct line as [|c r]; [reflexivity|].
      simpl in Hs. apply andb_true_iff in Hs. destruct Hs as [Hc _].
      destruct (js_space_not_value_start c Hc) as (_ & _ & _ & _ & _ & _ & _ & _ & E).
      change (startsWith (js "data: ") (c :: r))
        with (N.eqb 100 c && startsWith (js "ata: ") r).
      now rewrite N.eqb_sym, E. }
    rewrite Hp. now rewrite JSON_parse_spaces.
Qed.

Lemma parsed_records_flat_map :
  forall lines, flat_map stream_line lines = parsed_records lines.
Proof.
  intro lines. unfold parsed_records. apply flat_map_ext.
  intro line. apply stream_line_spec.
Qed.

Lemma parsed_records_app :
  forall a b, parsed_records (a ++ b) = parsed_records a ++ parsed_records b.
Proof. intros. unfold parsed_records. apply flat_map_app. Qed.

Lemma parsed_records_skip :
  forall before bad after,
    JSON_parse (payload bad) = None ->
    parsed_records (before ++ bad :: after) =
    parsed_records before ++ parsed_records after.
Proof.
  intros before bad after Hbad.
  rewrite parsed_records_app. f_equal.
  unfold parsed_records. simpl. now rewrite Hbad.
Qed.

Lemma split_nonempty : forall sep s, split sep s <> [].
Proof.
  intros sep s. destruct s as [|c r]; simpl; [discriminate|].
  destruct (c =? sep)%N; [discriminate|].
  destruct (split sep r); discriminate.
Qed.

(** Splitting a text that arrives in two parts: the complete pieces of the
    first part, then the pieces of its last piece followed by the second
    part. *)
Lemma split_app :
  forall sep a b,
    split sep (a ++ b) =
    removelast (split sep a) ++ split sep (last (split sep a) [] ++ b).
Proof.
  intros sep a b. induction a as [|c a IH]; [reflexivity|].
  simpl. pose proof (split_nonempty sep a) as Hne.
  destruct (c =? sep)%N eqn:E.
  - rewrite IH. destruct (split sep a) as [|l ls]; [contradiction|]. reflexivity.
  - rewrite IH. destruct (split sep a) as [|l ls]; [contradiction|].
    destruct ls as [|l2 ls2].
    + simpl. now rewrite E.
    + reflexivity.
Qed.

(** The last piece of a split holds no separator. *)
Lemma split_last :
  forall sep a, split sep (last (split sep a) []) = [last (split sep a) []].
Proof.
  intros sep a. induction a as [|c a IH]; [reflexivity|].
  simpl. pose proof (split_nonempty sep a) as Hne.
  destruct (c =? sep)%N eqn:E.
  - destruct (split sep a) as [|l ls]; [contradiction|]. exact IH.
  - destruct (split sep a) as [|l ls]; [contradiction|].
    destruct ls as [|l2 ls2].
    + simpl in *. now rewrite E, IH.
    + exact IH.
Qed.

Lemma decode_app :
  forall a b st,
    TextDecoder.decode st (a ++ b) =
    (fst (TextDecoder.decode (fst (TextDecoder.decode st a)) b),
     snd (TextDecoder.decode st a)
       ++ snd (TextDecoder.decode (fst (TextDecoder.decode st a)) b)).
Proof.
  induction a as [|x a IH]; intros b st; simpl.
  - now destruct (TextDecoder.decode st b).
  - destruct (TextDecoder.step st x) as [st1 out1].
    rewrite IH.
    destruct (TextDecoder.decode st1 a) as [st2 out2]. simpl.
    now rewrite app_assoc.
Qed.

Lemma stream_loop_yields :
  forall chunks decoder buffer,
    split 10 buffer = [buffer] ->
    fst (stream_loop decoder buffer chunks) =
    flat_map stream_line
      (complete_lines
         (buffer ++ snd (TextDecoder.decode decoder (List.concat chunks)))).
Proof.
  unfold complete_lines.
  induction chunks as [|value rest IH]; intros decoder buffer Hb.
  - simpl. now rewrite app_nil_r, Hb.
  - simpl. rewrite decode_app.
    destruct (TextDecoder.decode decoder value) as [decoder1 text]. simpl.
    specialize (IH decoder1 (last (split 10 (buffer ++ text)) []) (split_last _ _)).
    destruct (stream_loop decoder1 (last (split 10 (buffer ++ text)) []) rest)
      as [later final].
    simpl in *. rewrite IH.
    rewrite app_assoc, (split_app 10 (buffer ++ text)).
    rewrite removelast_app by apply split_nonempty.
    now rewrite flat_map_app.
Qed.

(** The values yielded depend on the bytes received, not on how they were
    cut into chunks: they are the parsed complete lines of the decoded
    text. *)
Lemma records_of_chunks :
  forall chunks,
    records_of chunks =
    parsed_records (complete_lines (decoded_text (List.concat chunks))).
Proof.
  intro chunks. unfold records_of, decoded_text.
  rewrite stream_loop_yields by reflexivity.
  apply parsed_records_flat_map.
Qed.

Lemma stream_loop_app :
  forall a b decoder buffer,
    fst (stream_loop decoder buffer (a ++ b)) =
    fst (stream_loop decoder buffer a)
      ++ fst (stream_loop (fst (snd (stream_loop decoder buffer a)))
                (snd (snd (stream_loop decoder buffer a))) b).
Proof.
  induction a as [|value a IH]; intros b decoder buffer; [reflexivity|].
  simpl.
  destruct (TextDecoder.decode decoder value) as [decoder1 text].
  specialize (IH b decoder1 (last (split 10 (buffer ++ text)) [])).
  destruct (stream_loop decoder1 (last (split 10 (buffer ++ text)) []) (a ++ b))
    as [l1 f1].
  destruct (stream_loop decoder1 (last (split 10 (buffer ++ text)) []) a)
    as [l2 f2].
  simpl in *. now rewrite IH, app_assoc.
Qed.

(** What is yielded while the first [k] chunks are read opens what is
    yielded in the whole run. *)
Lemma records_of_prefix :
  forall k chunks,
    exists later, records_of chunks = records_of (firstn k chunks) ++ later.
Proof.
  intros k chunks. unfold records_of.
  eexists.
  rewrite <- (firstn_skipn k chunks) at 1.
  apply stream_loop_app.
Qed.

Lemma stream_fed :
  forall ky c endpoint params options chunks,
    feeds ky (fst (stream ky c endpoint params options)) chunks ->
    snd (stream ky c endpoint params options) =
    {| yielded := records_of chunks; thrown := None |}.
Proof.
  intros ky c endpoint params options chunks (response & Hky & Hbody).
  unfold stream in *. simpl in *. now rewrite Hky, Hbody.
Qed.

Lemma split_line :
  forall sep line rest,
    ~ In sep line -> split sep (line ++ sep :: rest) = line :: split sep rest.
Proof.
  intros sep line rest. induction line as [|c line IH]; intro H; simpl.
  - now rewrite N.eqb_refl.
  - assert (E : (c =? sep)%N = false).
    { apply N.eqb_neq. intro; subst. apply H. now left. }
    rewrite E, IH; [reflexivity|]. intro Hin. apply H. now right.
Qed.

Lemma split_no_sep :
  forall sep text, ~ In sep text -> split sep text = [text].
Proof.
  intros sep text H. induction text as [|c r IH]; [reflexivity|].
  simpl. assert (E : (c =? sep)%N = false).
  { apply N.eqb_neq. intro; subst. apply H. now left. }
  rewrite E, IH; [reflexivity|]. intro Hin. apply H. now right.
Qed.

Lemma split_unlines :
  forall lines,
    Forall no_line_feed lines -> split 10 (unlines lines) = lines ++ [[]].
Proof.
  induction 1 as [|line lines Hl _ IH]; [reflexivity|].
  unfold unlines in *. simpl. rewrite <- app_assoc. simpl.
  now rewrite split_line, IH.
Qed.

Lemma complete_lines_unlines :
  forall lines, Forall no_line_feed lines -> complete_lines (unlines lines) = lines.
Proof.
  intros lines H. unfold complete_lines.
  rewrite split_unlines by assumption. apply removelast_last.
Qed.

Lemma unlines_single : forall line, unlines [line] = line ++ [10%N].
Proof. intro line. unfold unlines. simpl. apply app_nil_r. Qed.

Lemma complete_lines_no_line_feed :
  forall text, no_line_feed text -> complete_lines text = [].
Proof.
  intros text H. unfold complete_lines.
  rewrite <- (app_nil_r text).
  assert (E : split 10 (text ++ []) = [text]).
  { clear -H. induction text as [|c r IH]; [reflexivity|].
    simpl. assert (E : (c =? 10)%N = false).
    { apply N.eqb_neq. intro; subst. apply H. now left. }
    rewrite E, IH; [reflexivity|]. intro Hin. apply H. now right. }
  now rewrite E.
Qed.

End StreamFacts.

(* --------------------------------------------------------------------- *)
(** ** The stream decoder: records, partial lines, the sentinel *)

Module StreamClaims.

Import StreamFacts.

(** C5.  Fed any sequence of chunks, the stream yields exactly the complete
    lines that parse as JSON (the remainder after the prefix [data: ] when
    the line has it, the whole line otherwise), parsed, one by one in the
    order of the lines, and throws nothing; a complete line that does not
    parse is passed over and changes nothing of what is yielded before and
    after it. *)
Theorem stream_yields_parsed_lines_in_order :
  forall ky c endpoint params options chunks,
    feeds ky (fst (stream ky c endpoint params options)) chunks ->
    snd (stream ky c endpoint params options) =
      {| yielded := parsed_records (complete_lines (decoded_text (List.concat chunks)));
         thrown := None |}
    /\ (forall before bad after,
          Forall no_line_feed (before ++ bad :: after) ->
          decoded_text (List.concat chunks) = unlines (before ++ bad :: after) ->
          JSON_parse (payload bad) = None ->
          snd (stream ky c endpoint params options) =
            {| yielded := parsed_records before ++ parsed_records after;
               thrown := None |}).
Proof.
  intros ky c endpoint params options chunks Hfed.
  rewrite (stream_fed _ _ _ _ _ _ Hfed), records_of_chunks.
  split; [reflexivity|].
  intros before bad after Hlines Htext Hbad.
  rewrite Htext, complete_lines_unlines by assumption.
  now rewrite parsed_records_skip.
Qed.

Lemma stream_yields_parsed_lines_in_order_witness :
  let ky := fun _ : KyCall =>
              Resolved (stream_response [jsq "data: {'a':1}\n"; jsq "not json\n";
                                         jsq "{'a':2}\n"]) in
  snd (stream ky client (js "api/domains/example.com/log") None None) =
    {| yielded := [record_a 1; record_a 2]; thrown := None |}.
Proof.
  intro ky.
  destruct (@stream_yields_parsed_lines_in_order ky client
              (js "api/domains/example.com/log") None None
              [jsq "data: {'a':1}\n"; jsq "not json\n"; jsq "{'a':2}\n"])
    as [H _].
  - eexists. split; reflexivity.
  - exact H.
Defined.

(** C4.  The decoder keeps the unfinished last line of every chunk and parses
    it only once its line feed has arrived (chunks are sequences of bytes,
    cut anywhere, also inside a character).  While no line feed has arrived
    nothing is yielded; a single valid line cut anywhere into two or more
    chunks yields exactly its one record; what is yielded is the same as
    for any other cutting of the same text, in particular as when the line
    arrives in one chunk; and after any number of chunks, what has been
    yielded so far is the records of the lines completed so far. *)
Theorem stream_buffers_partial_lines :
  forall ky c endpoint params options chunks,
    feeds ky (fst (stream ky c endpoint params options)) chunks ->
    (no_line_feed (decoded_text (List.concat chunks)) ->
     snd (stream ky c endpoint params options) = {| yielded := []; thrown := None |})
    /\ (forall line record,
          no_line_feed line ->
          decoded_text (List.concat chunks) = line ++ [10%N] ->
          JSON_parse (payload line) = Some record ->
          snd (stream ky c endpoint params options) =
            {| yielded := [record]; thrown := None |})
    /\ (forall ky' chunks',
          feeds ky' (fst (stream ky' c endpoint params options)) chunks' ->
          List.concat chunks' = List.concat chunks ->
          snd (stream ky' c endpoint params options) =
          snd (stream ky c endpoint params options))
    /\ (forall k, exists later,
          yielded (snd (stream ky c endpoint params options)) =
          parsed_records (complete_lines (decoded_text (List.concat (firstn k chunks)))) ++ later).
Proof.
  intros ky c endpoint params options chunks Hfed.
  rewrite (stream_fed _ _ _ _ _ _ Hfed), records_of_chunks.
  split; [|split; [|split]]; cycle 3.
  - intro k. simpl. destruct (records_of_prefix k chunks) as [later Hlater].
    exists later. now rewrite <- !records_of_chunks.
  - intro Hno. now rewrite complete_lines_no_line_feed.
  - intros line record Hline Htext Hparse.
    rewrite Htext, <- unlines_single.
    rewrite complete_lines_unlines by (constructor; [assumption | constructor]).
    unfold parsed_records. simpl. now rewrite Hparse.
  - intros ky' chunks' Hfed' Hsame.
    now rewrite (stream_fed _ _ _ _ _ _ Hfed'), records_of_chunks, Hsame.
Qed.

Lemma stream_buffers_partial_lines_witness :
  let ky := fun _ : KyCall =>
              Resolved (stream_response [jsq "data: {'a':"; jsq "1}\n"]) in
  snd (stream ky client (js "api/domains/example.com/log") None None) =
    {| yielded := [record_a 1]; thrown := None |}.
Proof.
  intro ky.
  destruct (@stream_buffers_partial_lines ky client
              (js "api/domains/example.com/log") None None
              [jsq "data: {'a':"; jsq "1}\n"])
    as (_ & H & _).
  - eexists. split; reflexivity.
  - apply (H (jsq "data: {'a':1}")).
    + intro Hin. vm_compute in Hin. intuition discriminate.
    + reflexivity.
    + reflexivity.
Defined.

(** A character whose two bytes lie in different chunks: the record comes
    out whole. *)
Example stream_joins_a_split_character :
  records_of [jsq "data: {'a':'" ++ [195%N]; [169%N] ++ jsq "'}\n"] =
  [JObj [(js "a", JStr [233%N])]].
Proof. reflexivity. Qed.

(** C3, as the code has it: a complete line made of the prefix [data: ] and
    the sentinel [DONE] yields no record and raises no error, but it does not
    end the stream: the complete lines after it are decoded like any others,
    and the stream ends when the body ends. *)
Theorem stream_skips_the_sentinel :
  forall ky c endpoint params options chunks before after,
    feeds ky (fst (stream ky c endpoint params options)) chunks ->
    Forall no_line_feed before ->
    Forall no_line_feed after ->
    decoded_text (List.concat chunks) = unlines (before ++ js "data: [DONE]" :: after) ->
    snd (stream ky c endpoint params options) =
      {| yielded := parsed_records before ++ parsed_records after;
         thrown := None |}.
Proof.
  intros ky c endpoint params options chunks before after Hfed Hb Ha Htext.
  rewrite (stream_fed _ _ _ _ _ _ Hfed), records_of_chunks, Htext.
  rewrite complete_lines_unlines.
  - now rewrite parsed_records_skip.
  - apply Forall_app. split; [assumption|].
    constructor; [|assumption].
    intro Hin. vm_compute in Hin. intuition discriminate.
Qed.

Lemma stream_skips_the_sentinel_witness :
  let ky := fun _ : KyCall =>
              Resolved (stream_response [jsq "data: {'a':1}\n"; jsq "data: {'a':2}\n";
                                         jsq "data: [DONE]\n"]) in
  snd (stream ky client (js "api/domains/example.com/log") None None) =
    {| yielded := [record_a 1; record_a 2]; thrown := None |}.
Proof.
  intro ky.
  apply (@stream_skips_the_sentinel ky client (js "api/domains/example.com/log")
           None None
           [jsq "data: {'a':1}\n"; jsq "data: {'a':2}\n"; jsq "data: [DONE]\n"]
           [jsq "data: {'a':1}"; jsq "data: {'a':2}"] []).
  - eexists. split; reflexivity.
  - repeat constructor; intro Hin; vm_compute in Hin; intuition discriminate.
  - constructor.
  - reflexivity.
Defined.

(** C3, the claim as stated fails: a record that follows the sentinel line is
    still yielded, where the claim has the stream end at the sentinel and
    yield nothing from what comes after it. *)
Lemma stream_continues_after_the_sentinel :
  let ky := fun _ : KyCall =>
              Resolved (stream_response [jsq "data: [DONE]\ndata: {'a':1}\n"]) in
  snd (stream ky client (js "api/domains/example.com/log") None None) =
    {| yielded := [record_a 1]; thrown := None |}.
Proof. reflexivity. Qed.

End StreamClaims.

(* --------------------------------------------------------------------- *)
(** ** Encodings and headers *)

(** Facts about the encodings. *)
Module EncodingFacts.

Local Open Scope N_scope.

Lemma hex_digit_safe : forall i, hex_digit i <> 38 /\ hex_digit i <> 61.
Proof.
  intro i. unfold hex_digit. destruct (i <? 10) eqn:E.
  - apply N.ltb_lt in E. lia.
  - apply N.ltb_ge in E. lia.
Qed.

Lemma form_byte_safe :
  forall b x, In x (form_byte b) -> x <> 38 /\ x <> 61.
Proof.
  intros b x. unfold form_byte.
  destruct (b =? 32) eqn:E32.
  - intros [<-|[]]. lia.
  - destruct (is_alnum b || (b =? 42) || (b =? 45) || (b =? 46) || (b =? 95)) eqn:Es.
    + intros [<-|[]]. unfold is_alnum in Es.
      rewrite !orb_true_iff, !andb_true_iff, !N.eqb_eq, !N.leb_le in Es. lia.
    + pose proof (hex_digit_safe (b / 16)). pose proof (hex_digit_safe (b mod 16)).
      intros [<-|[<-|[<-|[]]]]; lia || assumption.
Qed.

Lemma form_encode_safe :
  forall s x, In x (form_encode s) -> x <> 38 /\ x <> 61.
Proof.
  intros s x H. unfold form_encode in H. apply in_flat_map in H.
  destruct H as (b & _ & Hb). exact (form_byte_safe b x Hb).
Qed.

Lemma form_encode_count :
  forall s, count_occ N.eq_dec (form_encode s) 38 = 0%nat
            /\ count_occ N.eq_dec (form_encode s) 61 = 0%nat.
Proof.
  intro s. split; apply count_occ_not_In; intro H;
    destruct (form_encode_safe s _ H) as [H1 H2]; congruence.
Qed.

Lemma pair_count :
  forall k v,
    count_occ N.eq_dec (form_encode k ++ [61] ++ form_encode v) 38 = 0%nat
    /\ count_occ N.eq_dec (form_encode k ++ [61] ++ form_encode v) 61 = 1%nat.
Proof.
  intros k v. rewrite !count_occ_app.
  destruct (form_encode_count k) as [-> ->].
  destruct (form_encode_count v) as [-> ->]. split; reflexivity.
Qed.

Lemma query_count :
  forall pairs : list (jsstring * jsstring),
    count_occ N.eq_dec (URLSearchParams_toString pairs) 38 = Nat.pred (List.length pairs)
    /\ count_occ N.eq_dec (URLSearchParams_toString pairs) 61 = List.length pairs.
Proof.
  unfold URLSearchParams_toString.
  induction pairs as [|[k v] rest [IH1 IH2]]; [split; reflexivity|].
  destruct (pair_count k v) as [P1 P2].
  destruct rest as [|kv rest'].
  - simpl in *. now rewrite P1, P2.
  - change (map _ ((k, v) :: kv :: rest'))
      with ((form_encode k ++ [61] ++ form_encode v)
              :: map (fun kv0 => form_encode (fst kv0) ++ [61] ++ form_encode (snd kv0))
                   (kv :: rest')).
    remember (map (fun kv0 => form_encode (fst kv0) ++ [61] ++ form_encode (snd kv0))
                (kv :: rest')) as parts eqn:Hparts.
    destruct parts as [|q parts']; [discriminate|].
    change (join_with [38] ((form_encode k ++ [61] ++ form_encode v) :: q :: parts'))
      with ((form_encode k ++ [61] ++ form_encode v) ++ [38] ++ join_with [38] (q :: parts')).
    rewrite !(count_occ_app N.eq_dec (form_encode k ++ [61] ++ form_encode v)).
    rewrite P1, P2.
    rewrite !(count_occ_app N.eq_dec [38]).
    rewrite IH1, IH2. simpl. split; reflexivity.
Qed.

Lemma base64_digit_char : forall i, base64_char (base64_digit i).
Proof.
  intro i. unfold base64_digit, base64_char.
  destruct (i <? 26) eqn:E1; [apply N.ltb_lt in E1; lia|].
  destruct (i <? 52) eqn:E2; [apply N.ltb_lt in E2; apply N.ltb_ge in E1; lia|].
  destruct (i <? 62) eqn:E3; [apply N.ltb_lt in E3; apply N.ltb_ge in E2; lia|].
  destruct (i =? 62); lia.
Qed.

Lemma base64_encode_chars :
  forall bytes, Forall base64_char (base64_encode bytes).
Proof.
  assert (H : forall n bytes, (List.length bytes <= n)%nat ->
                              Forall base64_char (base64_encode bytes)).
  { induction n as [|n IH]; intros bytes Hlen.
    - destruct bytes; [constructor | simpl in Hlen; lia].
    - destruct bytes as [|a [|b [|c r]]].
      + constructor.
      + simpl. repeat apply Forall_cons; try apply Forall_nil;
          try apply base64_digit_char; unfold base64_char; lia.
      + simpl. repeat apply Forall_cons; try apply Forall_nil;
          try apply base64_digit_char; unfold base64_char; lia.
      + change (base64_encode (a :: b :: c :: r))
          with ([base64_digit (a / 4); base64_digit (a mod 4 * 16 + b / 16);
                 base64_digit (b mod 16 * 4 + c / 64); base64_digit (c mod 64)]
                  ++ base64_encode r).
        apply Forall_app. split.
        * repeat apply Forall_cons; try apply Forall_nil; apply base64_digit_char.
        * apply IH. simpl in Hlen. lia. }
  intro bytes. apply (H (List.length bytes)). lia.
Qed.

Lemma utf8_encode_nonempty : forall s, s <> [] -> utf8_encode s <> [].
Proof.
  intros [|c r] H; [contradiction|]. simpl.
  destruct (c <? 128); [discriminate|].
  destruct (c <? 2048); [discriminate|].
  destruct (is_high_surrogate c).
  - destruct r as [|d r']; [discriminate|].
    destruct (is_low_surrogate d); discriminate.
  - destruct (is_low_surrogate c); discriminate.
Qed.

Lemma base64_encode_nonempty : forall bytes, bytes <> [] -> base64_encode bytes <> [].
Proof. intros [|a [|b [|c r]]] H; [contradiction | discriminate..]. Qed.

End EncodingFacts.

(** Facts about the headers of a request. *)
Module HeaderFacts.

Import Fetch.

Local Open Scope N_scope.

Lemma str_eqb_sym : forall a b, str_eqb a b = str_eqb b a.
Proof.
  induction a as [|x a IH]; destruct b as [|y b]; simpl; try reflexivity.
  now rewrite N.eqb_sym, IH.
Qed.

Lemma lower_name_idem : forall name, lower_name (lower_name name) = lower_name name.
Proof.
  intro name. unfold lower_name. rewrite map_map. apply map_ext. intro c.
  destruct ((65 <=? c) && (c <=? 90)) eqn:E; [|now rewrite E].
  apply andb_true_iff in E. destruct E as [E1 E2]. apply N.leb_le in E1, E2.
  replace ((65 <=? c + 32) && (c + 32 <=? 90)) with false; [reflexivity|].
  symmetry. apply andb_false_iff. right. apply N.leb_gt. lia.
Qed.

Lemma fill_spec :
  forall init held result,
    fill init held = Some result ->
    result = held ++ map (fun kv => (lower_name (fst kv), normalize (snd kv))) init.
Proof.
  induction init as [|[n v] rest IH]; intros held result H; simpl in H.
  - inversion H. now rewrite app_nil_r.
  - unfold append in H.
    destruct (is_header_name n && is_header_value (normalize v)); [|discriminate].
    apply IH in H. rewrite H, <- app_assoc. reflexivity.
Qed.

Lemma values_of_app :
  forall name a b, values_of name (a ++ b) = values_of name a ++ values_of name b.
Proof. intros. unfold values_of. now rewrite filter_app, map_app. Qed.

Lemma values_of_absent :
  forall name held,
    existsb (fun entry => str_eqb (fst entry) name) held = false ->
    values_of name held = [].
Proof.
  intros name held. unfold values_of.
  induction held as [|e rest IH]; simpl; [reflexivity|].
  destruct (str_eqb (fst e) name); simpl; [discriminate | exact IH].
Qed.

Lemma values_of_nil_iff :
  forall name held, values_of name held = [] <-> ~ In name (map fst held).
Proof.
  intros name held. unfold values_of.
  induction held as [|[k v] rest IH]; simpl; [tauto|].
  destruct (str_eqb k name) eqn:E; simpl.
  - apply str_eqb_eq in E. split; [discriminate | intro H; exfalso; apply H; now left].
  - rewrite IH. split.
    + intros H [Hk|Hin]; [subst k; rewrite str_eqb_refl in E; discriminate | now apply H].
    + intros H Hin. apply H. now right.
Qed.

Lemma values_of_replace_first_same :
  forall name value held,
    existsb (fun entry => str_eqb (fst entry) name) held = true ->
    values_of name (replace_first name value held) = [value].
Proof.
  intros name value. induction held as [|[k w] rest IH]; simpl; [discriminate|].
  destruct (str_eqb k name) eqn:E; simpl.
  - intros _. unfold values_of. simpl. rewrite str_eqb_refl. simpl. f_equal.
    clear. induction rest as [|[k' w'] rest IH]; simpl; [reflexivity|].
    destruct (str_eqb k' name) eqn:E; simpl; [exact IH|]. now rewrite E.
  - intro H. unfold values_of in *. simpl. rewrite E. now apply IH.
Qed.

Lemma values_of_replace_first_other :
  forall name other value held,
    str_eqb other name = false ->
    values_of other (replace_first name value held) = values_of other held.
Proof.
  intros name other value held Hne.
  assert (Hne' : str_eqb name other = false) by now rewrite str_eqb_sym.
  unfold values_of. induction held as [|[k w] rest IH]; simpl; [reflexivity|].
  destruct (str_eqb k name) eqn:E; simpl.
  - apply str_eqb_eq in E. subst k. rewrite Hne'. clear IH.
    induction rest as [|[k' w'] rest IH]; simpl; [reflexivity|].
    destruct (str_eqb k' name) eqn:E; simpl.
    + apply str_eqb_eq in E. subst k'. now rewrite Hne'.
    + destruct (str_eqb k' other); simpl; now rewrite IH.
  - destruct (str_eqb k other); simpl; now rewrite IH.
Qed.

Lemma values_of_set :
  forall name value held held' other,
    set name value held = Some held' ->
    values_of other held' =
      if str_eqb other (lower_name name) then [normalize value]
      else values_of other held.
Proof.
  intros name value held held' other H. unfold set in H.
  destruct (is_header_name name && is_header_value (normalize value)); [|discriminate].
  inversion H as [H']. clear H H'.
  destruct (str_eqb other (lower_name name)) eqn:E.
  - apply str_eqb_eq in E. subst other.
    destruct (existsb _ held) eqn:Ex.
    + now apply values_of_replace_first_same.
    + rewrite values_of_app, (values_of_absent _ _ Ex). unfold values_of. simpl.
      now rewrite str_eqb_refl.
  - destruct (existsb _ held) eqn:Ex.
    + now apply values_of_replace_first_other.
    + rewrite values_of_app. unfold values_of at 2. simpl.
      rewrite str_eqb_sym, E. simpl. apply app_nil_r.
Qed.

Lemma lookup_absent :
  forall (A : Type) (props : list (jsstring * A)) k,
    ~ In k (map fst props) -> lookup k props = None.
Proof.
  intros A props k. induction props as [|[k0 v0] rest IH]; simpl; [reflexivity|].
  intro H. destruct (str_eqb k k0) eqn:E.
  - apply str_eqb_eq in E. exfalso. apply H. now left.
  - apply IH. intro Hin. apply H. now right.
Qed.

Lemma lookup_present :
  forall (A : Type) (props : list (jsstring * A)) k v,
    lookup k props = Some v -> In (k, v) props.
Proof.
  intros A props k v. induction props as [|[k0 v0] rest IH]; simpl; [discriminate|].
  destruct (str_eqb k k0) eqn:E.
  - apply str_eqb_eq in E. subst k0. intro H. inversion H. now left.
  - intro H. right. now apply IH.
Qed.

Lemma lookup_none_absent :
  forall (A : Type) (props : list (jsstring * A)) k,
    lookup k props = None -> ~ In k (map fst props).
Proof.
  intros A props k. induction props as [|[k0 v0] rest IH]; simpl; [tauto|].
  destruct (str_eqb k k0) eqn:E; [discriminate|].
  intros H [Hk|Hin]; [subst k0; rewrite str_eqb_refl in E; discriminate|].
  now apply IH.
Qed.

Lemma lookup_permutation :
  forall (A : Type) (a b : list (jsstring * A)) k,
    NoDup (map fst a) -> Permutation a b -> lookup k a = lookup k b.
Proof.
  intros A a b k Hnd Hp.
  assert (Hnd' : NoDup (map fst b)).
  { eapply Permutation_NoDup; [|exact Hnd]. now apply Permutation_map. }
  destruct (lookup k a) as [v|] eqn:E.
  - symmetry. apply lookup_in_nodup; [exact Hnd'|].
    eapply Permutation_in; [exact Hp|]. now apply lookup_present.
  - symmetry. apply lookup_absent. intro Hin. apply (lookup_none_absent _ _ _ E).
    eapply Permutation_in; [|exact Hin]. apply Permutation_map. now symmetry.
Qed.

Lemma insert_permutation :
  forall entry sorted, Permutation (insert entry sorted) (entry :: sorted).
Proof.
  intros entry sorted. induction sorted as [|h t IH]; simpl; [reflexivity|].
  destruct (name_leb (fst entry) (fst h)); [reflexivity|].
  rewrite IH. apply perm_swap.
Qed.

Lemma sort_permutation : forall held, Permutation (sort held) held.
Proof.
  induction held as [|e rest IH]; simpl; [reflexivity|].
  rewrite insert_permutation. now constructor.
Qed.

Lemma lookup_names :
  forall (g : jsstring -> jsstring) names k,
    lookup k (map (fun name => (name, g name)) names) =
      if existsb (str_eqb k) names then Some (g k) else None.
Proof.
  intros g names k. induction names as [|n rest IH]; simpl; [reflexivity|].
  destruct (str_eqb k n) eqn:E; simpl; [|exact IH].
  apply str_eqb_eq in E. now subst n.
Qed.

Lemma entries_names :
  forall held,
    Permutation (map fst (entries held))
      (nodup (list_eq_dec N.eq_dec) (map fst held)).
Proof.
  intro held. unfold entries.
  rewrite (Permutation_map fst (sort_permutation _)), map_map. simpl.
  now rewrite map_id.
Qed.

Lemma entries_NoDup : forall held, NoDup (map fst (entries held)).
Proof.
  intro held. eapply Permutation_NoDup.
  - symmetry. apply entries_names.
  - apply NoDup_nodup.
Qed.

Lemma lookup_entries :
  forall held name,
    lookup name (entries held) =
      match values_of name held with
      | [] => None
      | values => Some (join_with (js ", ") values)
      end.
Proof.
  intros held name. unfold entries.
  rewrite <- (lookup_permutation _
                (map (fun n => (n, join_with (js ", ") (values_of n held)))
                   (nodup (list_eq_dec N.eq_dec) (map fst held))) _ name).
  - rewrite lookup_names.
    destruct (values_of name held) as [|v vs] eqn:E.
    + replace (existsb _ _) with false; [reflexivity|].
      symmetry. apply not_true_is_false. intro Hex.
      apply existsb_exists in Hex. destruct Hex as (n & Hin & Hn).
      apply str_eqb_eq in Hn. subst n. apply nodup_In in Hin.
      now apply (proj1 (values_of_nil_iff name held)).
    + replace (existsb _ _) with true; [reflexivity|].
      symmetry. apply existsb_exists. exists name. split; [|apply str_eqb_refl].
      apply nodup_In.
      destruct (in_dec (list_eq_dec N.eq_dec) name (map fst held)) as [Hin|Hout];
        [exact Hin|].
      apply values_of_nil_iff in Hout. rewrite Hout in E. discriminate.
  - rewrite map_map. simpl. rewrite map_id. apply NoDup_nodup.
  - symmetry. apply sort_permutation.
Qed.

Lemma entries_lower :
  forall init held,
    new_Headers init = Some held ->
    Forall (fun entry => lower_name (fst entry) = fst entry) (entries held).
Proof.
  intros init held H. apply fill_spec in H. simpl in H. subst held.
  apply Forall_forall. intros [n v] Hin.
  assert (Hn : In n (map fst (entries
            (map (fun kv => (lower_name (fst kv), normalize (snd kv))) init)))).
  { change n with (fst (n, v)). now apply in_map. }
  eapply Permutation_in in Hn; [|apply entries_names].
  apply nodup_In in Hn. rewrite map_map in Hn. simpl in Hn.
  apply in_map_iff in Hn. destruct Hn as (kv & <- & _). simpl.
  apply lower_name_idem.
Qed.

Lemma set_all_none :
  forall rest,
    fold_left (fun result entry =>
                 match result with
                 | Some held => set (fst entry) (snd entry) held
                 | None => None
                 end) rest None = None.
Proof. induction rest as [|e rest IH]; simpl; [reflexivity | exact IH]. Qed.

Lemma values_of_set_all :
  forall rest start final name,
    fold_left (fun result entry =>
                 match result with
                 | Some held => set (fst entry) (snd entry) held
                 | None => None
                 end) rest (Some start) = Some final ->
    NoDup (map fst rest) ->
    Forall (fun entry => lower_name (fst entry) = fst entry) rest ->
    values_of name final =
      match lookup name rest with
      | Some value => [normalize value]
      | None => values_of name start
      end.
Proof.
  induction rest as [|[k v] rest IH]; intros start final name H Hnd Hlow; simpl in H.
  - inversion H. reflexivity.
  - destruct (set k v start) as [held|] eqn:Es;
      [|rewrite set_all_none in H; discriminate].
    inversion Hnd as [|? ? Hout Hnd']. inversion Hlow as [|? ? Hk Hlow']. subst.
    simpl in Hk.
    rewrite (IH _ _ name H Hnd' Hlow'), (values_of_set _ _ _ _ name Es), Hk. simpl.
    destruct (str_eqb name k) eqn:E.
    + apply str_eqb_eq in E. subst k. now rewrite (lookup_absent _ _ _ Hout).
    + reflexivity.
Qed.

(** The values of a spelling of Authorization in the headers of a record. *)
Lemma values_of_authorization :
  forall init,
    values_of (js "authorization")
      (map (fun kv => (lower_name (fst kv), normalize (snd kv))) init)
    = authorization_values init.
Proof.
  intro init. unfold values_of, authorization_values, spells_authorization.
  induction init as [|[k v] rest IH]; simpl; [reflexivity|].
  destruct (str_eqb (lower_name k) (js "authorization")); simpl; now rewrite IH.
Qed.

(** What a merge leaves under Authorization. *)
Lemma merged_authorization :
  forall defaults init wire,
    Ky.mergeHeaders defaults init = Some wire ->
    get (js "Authorization") wire =
      match authorization_values init with
      | [] => get (js "Authorization") defaults
      | values => Some (normalize (join_with (js ", ") values))
      end.
Proof.
  intros defaults init wire H. unfold Ky.mergeHeaders in H.
  destruct (new_Headers init) as [source|] eqn:Es; [|discriminate].
  unfold get. change (lower_name (js "Authorization")) with (js "authorization").
  rewrite (values_of_set_all _ _ _ (js "authorization") H (entries_NoDup source)
             (entries_lower _ _ Es)).
  rewrite lookup_entries.
  apply fill_spec in Es. simpl in Es. subst source.
  rewrite values_of_authorization.
  destruct (authorization_values init); reflexivity.
Qed.

End HeaderFacts.

(* --------------------------------------------------------------------- *)
(** ** Authentication *)

Module AuthClaims.

Import HeaderFacts EncodingFacts.

(** The headers that reach ky: those of the caller, with the credentials of
    the client written over them when it has any. *)
Lemma sent_headers_issued :
  forall ky c r,
    sent_headers (issued ky c r) =
    match basicAuth c with
    | Some auth =>
        set_prop (js "Authorization")
          (js "Basic " ++ Buffer_base64 (username auth ++ js ":" ++ token auth))
          (caller_headers r)
    | None => caller_headers r
    end.
Proof.
  intros ky c r.
  destruct r as [e p o | e d o | e d f o | e d o | e d o | e p o];
    unfold sent_headers, issued, caller_headers, get, post, postMultipart, put,
      delete, stream, makeRequest, addAuthentication;
    simpl; destruct (basicAuth c); reflexivity.
Qed.

Lemma instance_issued : forall ky c r, instance (issued ky c r) = kyInstance c.
Proof. intros ky c r. destruct r; reflexivity. Qed.

Lemma reachable_defaults :
  forall c, reachable c -> headers (kyInstance c) = headers (ky_create []).
Proof. intros c H. induction H; simpl; auto. Qed.

Lemma default_headers_merged :
  Ky.mergeHeaders [] (headers (ky_create [])) = Some default_request_headers.
Proof. vm_compute. reflexivity. Qed.

(** The Authorization header of the request of an invocation. *)
Lemma request_authorization :
  forall ky c r wire,
    reachable c ->
    Ky.request_headers (issued ky c r) = Some wire ->
    Fetch.get (js "Authorization") wire =
      match authorization_values (sent_headers (issued ky c r)) with
      | [] => None
      | values => Some (Fetch.normalize (join_with (js ", ") values))
      end.
Proof.
  intros ky c r wire Hreach H. unfold Ky.request_headers in H.
  rewrite instance_issued, (reachable_defaults _ Hreach), default_headers_merged in H.
  rewrite (merged_authorization _ _ _ H). reflexivity.
Qed.

Lemma base64_char_not_space :
  forall x, base64_char x -> Fetch.is_http_whitespace x = false.
Proof.
  intros x H. unfold base64_char in H. unfold Fetch.is_http_whitespace.
  rewrite !orb_false_iff, !N.eqb_neq. lia.
Qed.

Lemma normalize_basic :
  forall encoded,
    encoded <> [] -> Forall base64_char encoded ->
    Fetch.normalize (js "Basic " ++ encoded) = js "Basic " ++ encoded.
Proof.
  intros encoded Hne Hall.
  destruct (exists_last Hne) as (front & d & ->).
  apply Forall_app in Hall. destruct Hall as [_ Hd].
  inversion Hd as [|? ? Hdc _]. subst.
  assert (Hs : forall c rest, Fetch.is_http_whitespace c = false ->
                              Fetch.strip_leading (c :: rest) = c :: rest).
  { intros c rest Hc. simpl. now rewrite Hc. }
  unfold Fetch.normalize.
  change (js "Basic ") with ([66; 97; 115; 105; 99; 32])%N.
  rewrite <- app_comm_cons, Hs by reflexivity.
  rewrite app_comm_cons, app_assoc.
  set (body := _ ++ front).
  rewrite rev_app_distr.
  change (rev [d] ++ rev body) with (d :: rev body).
  rewrite Hs by now apply base64_char_not_space.
  change (rev (d :: rev body)) with (rev (rev body) ++ [d]).
  now rewrite rev_involutive.
Qed.

(** The value that the client writes has no white space at its ends. *)
Lemma basic_value_normalized :
  forall auth,
    Fetch.normalize
      (js "Basic " ++ Buffer_base64 (username auth ++ js ":" ++ token auth)) =
    js "Basic " ++ Buffer_base64 (username auth ++ js ":" ++ token auth).
Proof.
  intro auth. apply normalize_basic; [|apply base64_encode_chars].
  apply base64_encode_nonempty, utf8_encode_nonempty.
  intro H. apply app_eq_nil in H. destruct H as [_ H]. discriminate.
Qed.

(** Writing Authorization into the headers of the caller: the value takes
    the place of the header of that very name, or the last place; the
    headers of the other spellings stay around it. *)
Lemma authorization_values_set_prop :
  forall value caller,
    NoDup (map fst caller) ->
    exists before after,
      authorization_values (set_prop (js "Authorization") value caller) =
        before ++ Fetch.normalize value :: after
      /\ before ++ after = other_spellings caller.
Proof.
  intros value caller. unfold other_spellings, authorization_values.
  induction caller as [|[k v] rest IH]; intro Hnd.
  - exists [], []. split; reflexivity.
  - inversion Hnd as [|? ? Hout Hnd']. subst.
    change (set_prop (js "Authorization") value ((k, v) :: rest))
      with (if str_eqb (js "Authorization") k then (k, value) :: rest
            else (k, v) :: set_prop (js "Authorization") value rest).
    destruct (str_eqb (js "Authorization") k) eqn:E.
    + apply str_eqb_eq in E. subst k.
      exists [], (map (fun entry => Fetch.normalize (snd entry))
                    (filter (fun entry => spells_authorization (fst entry)) rest)).
      split; [reflexivity|].
      cbn [filter fst negb]. rewrite str_eqb_refl. cbn [negb app].
      f_equal. f_equal. symmetry. apply forallb_filter_id.
      apply forallb_forall. intros [k' v'] Hin. cbn [fst].
      destruct (str_eqb (js "Authorization") k') eqn:E; [|reflexivity].
      apply str_eqb_eq in E. subst k'. exfalso. apply Hout.
      change (js "Authorization") with (fst (js "Authorization", v')).
      now apply in_map.
    + destruct (IH Hnd') as (before & after & H1 & H2).
      cbn [filter fst]. rewrite E. cbn [negb filter fst].
      destruct (spells_authorization k).
      * exists (Fetch.normalize v :: before), after. cbn [map snd].
        rewrite H1, <- H2. split; reflexivity.
      * exists before, after. now split.
Qed.

(** C6, as the code has it.  For every request made through [get], [post],
    [postMultipart], [put], [delete] or [stream] by a client that holds
    credentials (given non-empty at construction, or set later by
    [setBasicAuth]), the client writes Authorization, equal to [Basic ]
    followed by the base64 encoding of username, colon, token, from the
    credentials held at that moment, over the header of that name among
    those of the caller.  The request then carries it under Authorization,
    alone when the caller gave no header under another spelling of the name,
    and otherwise in one value with those, joined by a comma and a space.
    When the client holds no credentials it adds no such header, and
    Authorization is there only if the caller gave it among the headers of
    the request. *)
Theorem authorization_header :
  forall ky c r wire,
    reachable c ->
    NoDup (map fst (caller_headers r)) ->
    Ky.request_headers (issued ky c r) = Some wire ->
    match basicAuth c with
    | Some auth =>
        let basic :=
          js "Basic " ++ Buffer_base64 (username auth ++ js ":" ++ token auth) in
        lookup (js "Authorization") (sent_headers (issued ky c r)) = Some basic
        /\ (exists before after,
              Fetch.get (js "Authorization") wire =
                Some (Fetch.normalize (join_with (js ", ") (before ++ basic :: after)))
              /\ before ++ after = other_spellings (caller_headers r))
        /\ (other_spellings (caller_headers r) = [] ->
            Fetch.get (js "Authorization") wire = Some basic)
    | None =>
        Fetch.get (js "Authorization") wire =
          match authorization_values (caller_headers r) with
          | [] => None
          | values => Some (Fetch.normalize (join_with (js ", ") values))
          end
    end
    /\ (forall u0 u t0 t baseUrl,
          basicAuth (new_SmtpClient (Some (u0 :: u)) (Some (t0 :: t)) baseUrl) =
          Some {| username := u0 :: u; token := t0 :: t |})
    /\ (forall baseUrl, basicAuth (new_SmtpClient None None baseUrl) = None)
    /\ (forall u t,
          lookup (js "Authorization") (sent_headers (issued ky (setBasicAuth c u t) r)) =
          Some (js "Basic " ++ Buffer_base64 (u ++ js ":" ++ t))).
Proof.
  intros ky c r wire Hreach Hnd Hwire.
  pose proof (request_authorization _ _ _ _ Hreach Hwire) as Hget.
  rewrite sent_headers_issued in Hget.
  split; [|repeat split].
  - rewrite sent_headers_issued. revert Hget.
    destruct (basicAuth c) as [auth|]; intro Hget; [|exact Hget].
    cbv zeta.
    destruct (authorization_values_set_prop
                (js "Basic " ++ Buffer_base64 (username auth ++ js ":" ++ token auth))
                _ Hnd) as (before & after & Hav & Hrest).
    rewrite basic_value_normalized in Hav.
    unfold jsstring in Hav, Hget. rewrite Hav in Hget.
    assert (Hwire' :
      Fetch.get (js "Authorization") wire =
      Some (Fetch.normalize
              (join_with (js ", ")
                 (before ++ (js "Basic " ++ Buffer_base64
                                              (username auth ++ js ":" ++ token auth))
                         :: after)))).
    { rewrite Hget. destruct before; reflexivity. }
    split; [apply lookup_set_prop_same|]. split.
    + exists before, after. now split.
    + intro Hnone. rewrite Hnone in Hrest. apply app_eq_nil in Hrest.
      destruct Hrest as [-> ->]. rewrite Hwire'.
      cbn [app join_with]. now rewrite basic_value_normalized.
  - intros u t. rewrite sent_headers_issued. simpl. apply lookup_set_prop_same.
Qed.

Lemma authorization_header_witness :
  authorization_on_the_wire
    (issued (fun _ => Ky.settle success) client
       (Stream (js "api/domains/example.com/log") None None)) =
  Some (js "Basic dGVzdHVzZXI6dGVzdHRva2Vu").
Proof.
  unfold authorization_on_the_wire.
  destruct (Ky.request_headers
              (issued (fun _ => Ky.settle success) client
                 (Stream (js "api/domains/example.com/log") None None)))
    as [wire|] eqn:Hwire; [|vm_compute in Hwire; discriminate].
  assert (Hreach : reachable client) by apply reach_new.
  assert (Hnd : NoDup (map fst (caller_headers
                                  (Stream (js "api/domains/example.com/log") None None))))
    by constructor.
  destruct (@authorization_header (fun _ => Ky.settle success) client
              (Stream (js "api/domains/example.com/log") None None) wire
              Hreach Hnd Hwire) as [(_ & _ & H) _].
  exact (H eq_refl).
Defined.

(** C6, the claim as stated fails, in both its halves.  A client without
    credentials still sends an Authorization header when the caller puts one
    among the headers of the request, where the claim has the header absent;
    and a client with credentials, when the caller gives a header under the
    name [authorization], sends the value of the caller and its own in one
    header, where the claim has the header equal to its own value. *)
Lemma authorization_of_the_caller_is_sent :
  basicAuth anonymous = None
  /\ authorization_on_the_wire
       (issued (fun _ => Ky.settle success) anonymous
          (Get (js "api/domains") None
             (Some {| RequestOptions.headers :=
                        Some [(js "Authorization", js "Bearer abc")];
                      RequestOptions.timeout := None;
                      RequestOptions.retries := None |}))) =
     Some (js "Bearer abc")
  /\ authorization_on_the_wire
       (issued (fun _ => Ky.settle success) client
          (Get (js "api/domains") None
             (Some {| RequestOptions.headers :=
                        Some [(js "authorization", js "Bearer abc")];
                      RequestOptions.timeout := None;
                      RequestOptions.retries := None |}))) =
     Some (js "Bearer abc, Basic dGVzdHVzZXI6dGVzdHRva2Vu").
Proof. repeat split; vm_compute; reflexivity. Qed.

End AuthClaims.

(* --------------------------------------------------------------------- *)
(** ** Query parameters *)

Module QueryClaims.

Import StreamFacts EncodingFacts.

(** Pieces without an ampersand, joined by ampersands, are found again by
    cutting at the ampersands. *)
Lemma split_joined :
  forall pieces,
    pieces <> [] ->
    Forall (fun piece => ~ In 38%N piece) pieces ->
    split 38 (join_with [38%N] pieces) = pieces.
Proof.
  induction pieces as [|p rest IH]; intros Hne Hall; [contradiction|].
  inversion Hall as [|? ? Hp Hrest]. subst.
  destruct rest as [|q rest'].
  - simpl. now apply split_no_sep.
  - change (join_with [38%N] (p :: q :: rest'))
      with (p ++ 38%N :: join_with [38%N] (q :: rest')).
    rewrite (split_line _ _ _ Hp), IH; [reflexivity | discriminate | exact Hrest].
Qed.

(** The pairs of a serialised list of parameters are the encoded names and
    values of the list, one pair for each, in order. *)
Lemma query_pairs_serialised :
  forall pairs : list (jsstring * jsstring),
    query_pairs (URLSearchParams_toString pairs) =
    map (fun kv => (form_encode (fst kv), form_encode (snd kv))) pairs.
Proof.
  intro pairs. unfold query_pairs, URLSearchParams_toString.
  destruct pairs as [|kv rest]; [reflexivity|].
  rewrite split_joined.
  - induction (kv :: rest) as [|[k v] more IH]; [reflexivity|].
    cbn [map fst snd filter].
    assert (Hne : nonempty (form_encode k ++ [61%N] ++ form_encode v) = true).
    { destruct (form_encode k); reflexivity. }
    rewrite Hne. cbn [map]. rewrite IH. f_equal.
    change (form_encode k ++ [61%N] ++ form_encode v)
      with (form_encode k ++ 61%N :: form_encode v).
    rewrite split_line, split_no_sep.
    + reflexivity.
    + intro H. now destruct (form_encode_safe _ _ H).
    + intro H. now destruct (form_encode_safe _ _ H).
  - discriminate.
  - apply Forall_forall. intros piece Hin. apply in_map_iff in Hin.
    destruct Hin as ([k v] & <- & _). cbn [fst snd]. intro H.
    apply in_app_or in H. destruct H as [H|H];
      [now destruct (form_encode_safe _ _ H)|].
    apply in_app_or in H. destruct H as [H|H];
      [|now destruct (form_encode_safe _ _ H)].
    destruct H as [H|[]]. discriminate.
Qed.

(** C9, as the code has it.  [get] hands the record of parameters to
    [URLSearchParams]: the query string holds one pair for every key that
    the record holds, in the order of the record and whatever characters the
    keys and the values are made of, and the value of each pair is the
    value of the key converted by the one rule ToString and then encoded.
    A key that the record does not hold is not serialised; a key that it
    holds with the value undefined is serialised with the text
    [undefined].  Without a record there is no query.  [delete] never sends
    a query: the record that it is given is the JSON body. *)
Theorem query_serialises_every_key_of_the_record :
  forall ky c endpoint params options,
    (exists query,
       query_string (fst (get ky c endpoint (Some params) options)) = Some query
       /\ query_pairs query =
          map (fun kv => (form_encode (fst kv), form_encode (ToString (snd kv))))
            params)
    /\ (forall key,
          query_string (fst (get ky c endpoint (Some [(key, JUndefined)]) options)) =
          Some (form_encode key ++ js "=undefined"))
    /\ query_string (fst (get ky c endpoint None options)) = None
    /\ (forall data, query_string (fst (delete ky c endpoint data options)) = None)
    /\ ToString (JBool true) = js "true"
    /\ ToString (JInt 25) = js "25"
    /\ ToString (JNum 15 (-1)) = js "1.5"
    /\ ToString (JNum 1 21) = js "1e+21"
    /\ ToString (JNum 1 (-7)) = js "1e-7"
    /\ (forall shown, ToString (JDate shown) = shown).
Proof.
  intros ky c endpoint params options.
  split; [|repeat split; vm_compute; reflexivity].
  unfold query_string, get, makeRequest. cbn [fst Client.options Options.searchParams
    with_method addAuthentication option_map].
  eexists. split; [reflexivity|].
  rewrite query_pairs_serialised. unfold new_URLSearchParams.
  rewrite map_map. reflexivity.
Qed.

(** C9, the claim as stated fails: a key whose value is undefined is not left
    out of the query, it is serialised with the text [undefined]. *)
Lemma undefined_is_serialised :
  query_string
    (fst (get (fun _ => Ky.settle success) client (js "api/domains")
            (Some [(js "limit", JUndefined); (js "page", JInt 2)]) None)) =
  Some (js "limit=undefined&page=2").
Proof. vm_compute. reflexivity. Qed.

End QueryClaims.

(* --------------------------------------------------------------------- *)
(** ** The request URL *)

Module UrlClaims.

(** C8 (defect of the code).  The base URL loses its trailing slash at
    construction, so with the endpoint [api/domains] the request goes to the
    same URL and succeeds whether the base URL ends in a slash or not.  The
    endpoint is handed to ky as it is: with [/api/domains] ky refuses the
    input, no request is made, and the call throws, where the claim has the
    same URL and the same success for all four writings. *)
Theorem leading_slash_of_the_endpoint_is_not_removed :
  let plain := new_SmtpClient None None (Some (js "https://smtp-app.kirim.email")) in
  let slashed := new_SmtpClient None None (Some (js "https://smtp-app.kirim.email/")) in
  snd (get (Ky.request net) plain (js "api/domains") None None) =
    Returns (JObj [(js "success", JBool true)])
  /\ snd (get (Ky.request net) slashed (js "api/domains") None None) =
       Returns (JObj [(js "success", JBool true)])
  /\ input (fst (get (Ky.request net) plain (js "/api/domains") None None)) =
       js "/api/domains"
  /\ snd (get (Ky.request net) plain (js "/api/domains") None None) =
       Throws (SdkError
                 {| class := ApiException;
                    message :=
                      js "Unexpected error: `input` must not begin with a slash when using `prefixUrl`";
                    statusCode := None;
                    errors := JUndefined |})
  /\ snd (get (Ky.request net) slashed (js "/api/domains") None None) =
     snd (get (Ky.request net) plain (js "/api/domains") None None).
Proof. repeat split. Qed.

End UrlClaims.

(* --------------------------------------------------------------------- *)
(** ** Retries *)

Module RetryClaims.

Import RetryPolicy.

Lemma transient_response :
  forall response,
    In (status response) [408; 413; 429; 500; 502; 503; 504]%Z ->
    Response_ok response = false
    /\ transient default_config (status response) = true.
Proof.
  intros response H. unfold Response_ok. simpl in H.
  repeat (destruct H as [H|H]; [rewrite <- H; split; reflexivity|]).
  contradiction.
Qed.

Lemma get_call_config :
  forall ky username token baseUrl endpoint params,
    let call := fst (get ky (new_SmtpClient username token baseUrl) endpoint params None) in
    config_of call = default_config /\ method_of call = js "GET".
Proof. intros. split; reflexivity. Qed.

(** C7.  With the retry configuration of the constructor and no override by
    the caller: a GET whose first two underlying HTTP calls are answered
    with a transient status (408, 413, 429, 500, 502, 503, 504) and whose
    third is answered 200 returns the body of the third answer, and exactly
    three underlying calls are made; three attempts in total is the bound;
    a GET first answered with 400 makes exactly one underlying call; a POST
    makes exactly one underlying call whatever the answers. *)
Theorem default_retry_policy :
  forall username token baseUrl endpoint params answers,
    let c := new_SmtpClient username token baseUrl in
    let run := get (backend answers) c endpoint params None in
    (forall data,
       In (status (answers 0%nat)) [408; 413; 429; 500; 502; 503; 504]%Z ->
       In (status (answers 1%nat)) [408; 413; 429; 500; 502; 503; 504]%Z ->
       status (answers 2%nat) = 200%Z ->
       json_result (answers 2%nat) = inl data ->
       snd run = Returns data /\ calls_made answers (fst run) = 3%nat)
    /\ (calls_made answers (fst run) <= 3)%nat
    /\ (status (answers 0%nat) = 400%Z -> calls_made answers (fst run) = 1%nat)
    /\ (forall data,
          calls_made answers (fst (post (backend answers) c endpoint data None)) = 1%nat).
Proof.
  intros username token baseUrl endpoint params answers c run.
  assert (Hexec : execute answers (fst run) =
                  RetryPolicy.run default_config (js "GET") answers 2 0)
    by reflexivity.
  split; [|repeat split].
  - intros data H0 H1 H2 Hbody.
    destruct (transient_response _ H0) as [Hok0 Ht0].
    destruct (transient_response _ H1) as [Hok1 Ht1].
    assert (Hok2 : Response_ok (answers 2%nat) = true)
      by (unfold Response_ok; rewrite H2; reflexivity).
    assert (Hrun : execute answers (fst run) = (Resolved (answers 2%nat), 3%nat)).
    { rewrite Hexec. cbn [RetryPolicy.run]. rewrite Hok0, Ht0.
      change (retryable_method default_config (js "GET")) with true.
      cbn [andb RetryPolicy.run]. rewrite Hok1, Ht1.
      cbn [andb RetryPolicy.run]. now rewrite Hok2. }
    split.
    + unfold run, get, makeRequest. simpl. unfold backend.
      change (execute answers _) with (execute answers (fst run)).
      rewrite Hrun. simpl. now rewrite Hbody, Hok2.
    + unfold calls_made. now rewrite Hrun.
  - unfold calls_made. rewrite Hexec. cbn [RetryPolicy.run].
    repeat match goal with
           | |- context [if ?b then _ else _] => destruct b
           end; simpl; lia.
  - intro H400. unfold calls_made. rewrite Hexec. cbn [RetryPolicy.run].
    unfold Response_ok. rewrite H400. reflexivity.
  - intro data. unfold calls_made.
    change (execute answers (fst (post (backend answers) c endpoint data None)))
      with (RetryPolicy.run default_config (js "POST") answers 2 0).
    cbn [RetryPolicy.run].
    change (retryable_method default_config (js "POST")) with false.
    destruct (Response_ok (answers 0%nat)); reflexivity.
Qed.

Lemma default_retry_policy_witness :
  snd (get (backend third_time_lucky) client (js "api/domains") None None) =
    Returns (JObj [(js "success", JBool true)])
  /\ calls_made third_time_lucky
       (fst (get (backend third_time_lucky) client (js "api/domains") None None)) = 3%nat.
Proof.
  apply (proj1 (default_retry_policy (Some (js "testuser")) (Some (js "testtoken"))
                  None (js "api/domains") None third_time_lucky)).
  - simpl. intuition.
  - simpl. intuition.
  - reflexivity.
  - reflexivity.
Defined.

End RetryClaims.

(* ===================================================================== *)
(** * Further properties of the client *)
(* ===================================================================== *)

Module RequestFacts.

Lemma handleError_SdkError :
  forall e endpoint, handleError (SdkError e) endpoint = SdkError e.
Proof. intros [[] msg code errs] endpoint; reflexivity. Qed.

Lemma handleError_gives_sdk :
  forall error endpoint,
    carries_response error -> exists e, handleError error endpoint = SdkError e.
Proof.
  intros error endpoint Hresp. unfold handleError.
  destruct (str_eqb (error_name error) (js "HTTPError")) eqn:Ename.
  - apply str_eqb_eq in Ename.
    destruct (Hresp Ename) as (info & response & ->).
    repeat match goal with
           | |- context [if ?b then _ else _] => destruct b
           end; eexists; reflexivity.
  - destruct (str_eqb (error_name error) (js "TimeoutError"));
      [eexists; reflexivity|].
    destruct (str_eqb (error_name error) (js "NetworkError"));
      [eexists; reflexivity|].
    destruct error; eexists; reflexivity.
Qed.

Lemma str_eqb_neq : forall a b, a <> b -> str_eqb a b = false.
Proof.
  intros a b H. destruct (str_eqb a b) eqn:E; [|reflexivity].
  apply str_eqb_eq in E. contradiction.
Qed.

(** X1.  [makeRequest] returns a value exactly when ky resolves with a
    response that is [ok] and whose body parses as JSON, and the value is
    that parsed body, unchanged. *)
Theorem makeRequest_returns_exactly_the_ok_body :
  forall ky c method endpoint options data,
    snd (makeRequest ky c method endpoint options) = Returns data <->
    exists response,
      ky (fst (makeRequest ky c method endpoint options)) = Resolved response
      /\ Response_ok response = true
      /\ json_result response = inl data.
Proof.
  intros ky c method endpoint options data. unfold makeRequest. simpl.
  destruct (ky _) as [response|error].
  - destruct (json_result response) as [body|info] eqn:Ej.
    + destruct (Response_ok response) eqn:Eok.
      * split.
        -- intro H. inversion H; subst. exists response. now rewrite Ej.
        -- intros (r & Hr & _ & Hj). inversion Hr; subst.
           rewrite Ej in Hj. now inversion Hj.
      * split; [discriminate|].
        intros (r & Hr & Hok & _). inversion Hr; subst. congruence.
    + split; [discriminate|].
      intros (r & Hr & _ & Hj). inversion Hr; subst. congruence.
  - split; [discriminate|]. intros (r & Hr & _). discriminate.
Qed.

Lemma makeRequest_failure_is_sdk :
  forall ky c method endpoint options error,
    plausible (ky (fst (makeRequest ky c method endpoint options))) ->
    snd (makeRequest ky c method endpoint options) = Throws error ->
    exists e, error = SdkError e.
Proof.
  intros ky c method endpoint options error. unfold makeRequest. simpl.
  destruct (ky _) as [response|rejected]; simpl.
  - destruct (json_result response) as [body|info].
    + intros _. destruct (Response_ok response); [discriminate|].
      rewrite handleError_SdkError. intro H. inversion H. eexists; reflexivity.
    + intros Hname H. inversion H.
      unfold handleError. simpl.
      rewrite (str_eqb_neq _ _ Hname).
      repeat match goal with
             | |- context [if ?b then _ else _] => destruct b
             end; eexists; reflexivity.
  - intros Hresp H. inversion H.
    destruct (handleError_gives_sdk _ endpoint Hresp) as [e He].
    exists e. exact He.
Qed.

(** X2.  Whatever goes wrong in [makeRequest], what it throws is an
    exception of the SDK (an [ApiException] or one of its subclasses), as
    long as the backend answers as ky and fetch do. *)
Theorem makeRequest_throws_only_sdk_exceptions :
  forall ky c method endpoint options error,
    plausible (ky (fst (makeRequest ky c method endpoint options))) ->
    snd (makeRequest ky c method endpoint options) = Throws error ->
    exists e, error = SdkError e.
Proof. exact makeRequest_failure_is_sdk. Qed.

Lemma makeRequest_throws_only_sdk_exceptions_witness :
  exists e,
    handleError (HostError {| err_name := js "TimeoutError";
                              err_message := js "Request timed out" |} None)
      (js "api/domains") = SdkError e.
Proof.
  apply (@makeRequest_throws_only_sdk_exceptions
           (fun _ => Rejected (HostError {| err_name := js "TimeoutError";
                                            err_message := js "Request timed out" |}
                                         None))
           client (js "GET") (js "api/domains") no_options
           (handleError (HostError {| err_name := js "TimeoutError";
                                      err_message := js "Request timed out" |} None)
              (js "api/domains"))).
  - simpl. intro H. discriminate H.
  - reflexivity.
Defined.

(** X3.  When ky resolves with a response that is not [ok] (it did not
    throw), what [makeRequest] throws depends on the body, which is read
    before the status is looked at.  If the body parses as JSON, it is a
    plain [ApiException] that carries the status and the text
    [Unexpected status code: ] followed by it, whatever the status: a 404
    received this way is not a NotFoundException.  If the body does not
    parse, it is an [ApiException] without status whose text is
    [Unexpected error: ] followed by the message of the parser. *)
Theorem resolved_error_status_is_a_plain_ApiException :
  forall ky c method endpoint options response,
    ky (fst (makeRequest ky c method endpoint options)) = Resolved response ->
    Response_ok response = false ->
    (forall data,
       json_result response = inl data ->
       snd (makeRequest ky c method endpoint options) =
       Throws (SdkError {| class := ApiException;
                           message := js "Unexpected status code: "
                                        ++ Z_to_js (status response);
                           statusCode := Some (status response);
                           errors := JUndefined |}))
    /\ (forall info,
          json_result response = inr info ->
          err_name info = js "SyntaxError" ->
          snd (makeRequest ky c method endpoint options) =
          Throws (SdkError {| class := ApiException;
                              message := js "Unexpected error: " ++ err_message info;
                              statusCode := None;
                              errors := JUndefined |})).
Proof.
  intros ky c method endpoint options response Hky Hok.
  unfold makeRequest in *. simpl in *. rewrite Hky. split.
  - intros data Hj. now rewrite Hj, Hok.
  - intros info Hj Hname. rewrite Hj. unfold handleError. simpl. now rewrite Hname.
Qed.

Lemma resolved_error_status_is_a_plain_ApiException_witness :
  snd (makeRequest (fun _ => Resolved not_found) client (js "GET")
         (js "api/domains/example.com") no_options) =
  Throws (SdkError {| class := ApiException;
                      message := js "Unexpected status code: 404";
                      statusCode := Some 404%Z;
                      errors := JUndefined |}).
Proof.
  exact (proj1 (@resolved_error_status_is_a_plain_ApiException
                  (fun _ => Resolved not_found) client (js "GET")
                  (js "api/domains/example.com") no_options not_found
                  eq_refl eq_refl) _ eq_refl).
Defined.

(** X4.  The [handleError] of the API classes changes nothing of what the
    client throws: the result of [sendMessage], [sendBulkMessage],
    [sendTemplateMessage] and [sendMessageWithAttachments] is the result of
    the client's [post] or [postMultipart], the same value or the very same
    exception with its class, message, status code and errors. *)
Theorem api_wrappers_pass_the_client_result :
  forall ky c domain message fields files,
    (forall call, plausible (ky call)) ->
    snd (MessagesApi.sendMessage ky c domain message) =
      snd (post ky c (js "/api/domains/" ++ domain ++ js "/message") message None)
    /\ snd (MessagesApi.sendBulkMessage ky c domain message) =
         snd (post ky c (js "/api/domains/" ++ domain ++ js "/message") message None)
    /\ snd (MessagesApi.sendTemplateMessage ky c domain message) =
         snd (post ky c (js "/api/domains/" ++ domain ++ js "/message/template")
                message None)
    /\ snd (MessagesApi.sendMessageWithAttachments ky c domain fields files) =
         snd (postMultipart ky c (js "/api/domains/" ++ domain ++ js "/message")
                (Some fields) (Some files) None).
Proof.
  intros ky c domain message fields files Hky.
  assert (Hpass : forall method endpoint options,
            MessagesApi.rethrow (snd (makeRequest ky c method endpoint options)) =
            snd (makeRequest ky c method endpoint options)).
  { intros method endpoint options.
    destruct (snd (makeRequest ky c method endpoint options)) as [v|error] eqn:E;
      [reflexivity|].
    destruct (makeRequest_failure_is_sdk ky c method endpoint
                options error (Hky _) E) as [e ->].
    reflexivity. }
  repeat split; apply Hpass.
Qed.

Lemma api_wrappers_pass_the_client_result_witness :
  snd (MessagesApi.sendMessage (fun _ => Ky.settle not_found) client
         (js "example.com") (JObj [])) =
  snd (post (fun _ => Ky.settle not_found) client
         (js "/api/domains/example.com/message") (JObj []) None).
Proof.
  apply (@api_wrappers_pass_the_client_result (fun _ => Ky.settle not_found)
           client (js "example.com") (JObj []) [] []).
  intros call Hname. eexists. eexists. reflexivity.
Defined.

(** X5.  With ky's rule for [prefixUrl], the four sending methods of the
    message API never reach the network from a client that has a base URL:
    their endpoints begin with a slash, ky refuses them, and every call
    throws the same [ApiException]. *)
Theorem message_api_endpoints_are_refused :
  forall net c domain message fields files,
    nonempty (prefixUrl (kyInstance c)) = true ->
    let refused :=
      Throws (SdkError
                {| class := ApiException;
                   message :=
                     js "Unexpected error: `input` must not begin with a slash when using `prefixUrl`";
                   statusCode := None;
                   errors := JUndefined |}) in
    snd (MessagesApi.sendMessage (Ky.request net) c domain message) = refused
    /\ snd (MessagesApi.sendBulkMessage (Ky.request net) c domain message) = refused
    /\ snd (MessagesApi.sendTemplateMessage (Ky.request net) c domain message) = refused
    /\ snd (MessagesApi.sendMessageWithAttachments (Ky.request net) c domain
              fields files) = refused.
Proof.
  intros net c domain message fields files Hbase refused.
  unfold MessagesApi.sendMessage, MessagesApi.sendBulkMessage,
    MessagesApi.sendTemplateMessage, MessagesApi.sendMessageWithAttachments,
    post, postMultipart, makeRequest, Ky.request, Ky.join_url.
  simpl. rewrite Hbase. repeat split.
Qed.

Lemma message_api_endpoints_are_refused_witness :
  snd (MessagesApi.sendMessage (Ky.request net) client (js "example.com") (JObj [])) =
  Throws (SdkError
            {| class := ApiException;
               message :=
                 js "Unexpected error: `input` must not begin with a slash when using `prefixUrl`";
               statusCode := None;
               errors := JUndefined |}).
Proof.
  apply (@message_api_endpoints_are_refused net client (js "example.com")
           (JObj []) [] []).
  reflexivity.
Defined.

End RequestFacts.

(* --------------------------------------------------------------------- *)
(** ** Failures and edges of the stream *)

Module StreamEdges.

Import StreamFacts RequestFacts.

Lemma split_unlines_tail :
  forall lines tail,
    Forall no_line_feed lines -> no_line_feed tail ->
    split 10 (unlines lines ++ tail) = lines ++ [tail].
Proof.
  intros lines tail Hlines Htail.
  induction Hlines as [|line lines Hl _ IH].
  - simpl. now apply split_no_sep.
  - unfold unlines in *. simpl. rewrite <- !app_assoc. simpl.
    now rewrite split_line, IH.
Qed.

(** X6.  A rejection of the backend gives the same exception from [stream]
    as from [get], and the stream yields nothing before it throws. *)
Theorem stream_and_get_throw_the_same :
  forall ky c endpoint params options error,
    ky (fst (stream ky c endpoint params options)) = Rejected error ->
    ky (fst (get ky c endpoint params options)) = Rejected error ->
    exists thrown,
      snd (get ky c endpoint params options) = Throws thrown
      /\ snd (stream ky c endpoint params options) =
           {| yielded := []; thrown := Some thrown |}.
Proof.
  intros ky c endpoint params options error Hs Hg.
  exists (handleError error endpoint). split.
  - unfold get, makeRequest in *. simpl in *. now rewrite Hg.
  - unfold stream in *. simpl in *. now rewrite Hs.
Qed.

Lemma stream_and_get_throw_the_same_witness :
  exists thrown,
    snd (get (fun _ => Ky.settle not_found) client (js "api/domains/x/log") None None)
      = Throws thrown
    /\ snd (stream (fun _ => Ky.settle not_found) client (js "api/domains/x/log")
              None None) = {| yielded := []; thrown := Some thrown |}.
Proof.
  exact (@stream_and_get_throw_the_same (fun _ => Ky.settle not_found) client
           (js "api/domains/x/log") None None (HTTPError not_found)
           eq_refl eq_refl).
Defined.

(** X7.  When the response has no body the stream yields nothing and throws
    the [ApiException] [Response body is empty]; when a read fails after
    some chunks, the records of the lines completed by then have been
    yielded and stay, and the stream throws an [ApiException] whose message
    is [Unexpected error: ] followed by the message of the failure. *)
Theorem stream_failures :
  forall ky c endpoint params options response,
    ky (fst (stream ky c endpoint params options)) = Resolved response ->
    (body response = None ->
     snd (stream ky c endpoint params options) =
       {| yielded := [];
          thrown := Some (SdkError {| class := ApiException;
                                      message := js "Response body is empty";
                                      statusCode := None;
                                      errors := JUndefined |}) |})
    /\ (forall chunks info,
          body response = Some {| reads := chunks; ending := Some info |} ->
          err_name info <> js "HTTPError" ->
          err_name info <> js "TimeoutError" ->
          err_name info <> js "NetworkError" ->
          snd (stream ky c endpoint params options) =
            {| yielded :=
                 parsed_records (complete_lines (decoded_text (List.concat chunks)));
               thrown :=
                 Some (SdkError {| class := ApiException;
                                   message := js "Unexpected error: " ++ err_message info;
                                   statusCode := None;
                                   errors := JUndefined |}) |}).
Proof.
  intros ky c endpoint params options response Hky.
  unfold stream. simpl. unfold stream in Hky. simpl in Hky. rewrite Hky.
  split.
  - intros ->. reflexivity.
  - intros chunks info -> H1 H2 H3. simpl.
    fold (records_of chunks). rewrite records_of_chunks.
    unfold handleError. simpl.
    now rewrite (str_eqb_neq _ _ H1), (str_eqb_neq _ _ H2), (str_eqb_neq _ _ H3).
Qed.

Lemma stream_failures_witness :
  snd (stream (fun _ => Resolved success) client (js "api/domains/x/log") None None) =
  {| yielded := [];
     thrown := Some (SdkError {| class := ApiException;
                                 message := js "Response body is empty";
                                 statusCode := None;
                                 errors := JUndefined |}) |}.
Proof.
  apply (@stream_failures (fun _ => Resolved success) client
           (js "api/domains/x/log") None None success eq_refl).
  reflexivity.
Defined.

(** X8.  What follows the last line feed when the body ends is never
    parsed: a last line that is not closed by a line feed yields nothing,
    even when it is valid JSON. *)
Theorem stream_drops_the_unfinished_last_line :
  forall ky c endpoint params options chunks lines tail,
    feeds ky (fst (stream ky c endpoint params options)) chunks ->
    Forall no_line_feed lines ->
    no_line_feed tail ->
    decoded_text (List.concat chunks) = unlines lines ++ tail ->
    snd (stream ky c endpoint params options) =
      {| yielded := parsed_records lines; thrown := None |}.
Proof.
  intros ky c endpoint params options chunks lines tail Hfed Hlines Htail Htext.
  rewrite (stream_fed _ _ _ _ _ _ Hfed), records_of_chunks, Htext.
  unfold complete_lines. rewrite split_unlines_tail by assumption.
  now rewrite removelast_last.
Qed.

Lemma stream_drops_the_unfinished_last_line_witness :
  JSON_parse (jsq "{'a':2}") = Some (record_a 2)
  /\ snd (stream (fun _ => Resolved (stream_response [jsq "{'a':1}\n{'a':2}"]))
            client (js "api/domains/x/log") None None) =
     {| yielded := [record_a 1]; thrown := None |}.
Proof.
  split; [reflexivity|].
  apply (@stream_drops_the_unfinished_last_line
           (fun _ => Resolved (stream_response [jsq "{'a':1}\n{'a':2}"]))
           client (js "api/domains/x/log") None None
           [jsq "{'a':1}\n{'a':2}"] [jsq "{'a':1}"] (jsq "{'a':2}")).
  - eexists. split; reflexivity.
  - repeat constructor. intro Hin. vm_compute in Hin. intuition discriminate.
  - intro Hin. vm_compute in Hin. intuition discriminate.
  - reflexivity.
Defined.

(** X9.  [stream] always gives ky a timeout that is not zero, the caller's
    when it is given and not zero and 60000 otherwise, and it never hands
    over the caller's [retries]; [get] hands over both as the caller gave
    them. *)
Theorem stream_timeout_and_retries :
  forall ky c endpoint params options,
    let s := Client.options (fst (stream ky c endpoint params options)) in
    let g := Client.options (fst (get ky c endpoint params options)) in
    Options.retry s = None
    /\ (exists t, Options.timeout s = Some t /\ t <> 0%Z
                  /\ (opt_timeout options = Some t \/ t = 60000%Z))
    /\ (forall t, opt_timeout options = Some t -> t <> 0%Z ->
                  Options.timeout s = Some t)
    /\ Options.timeout g = opt_timeout options
    /\ Options.retry g = opt_retries options.
Proof.
  intros ky c endpoint params options s g. subst s g.
  unfold stream, get, makeRequest. simpl.
  repeat split.
  - destruct (opt_timeout options) as [t|]; [|exists 60000%Z; repeat split; [discriminate | now right]].
    destruct (t =? 0)%Z eqn:E.
    + exists 60000%Z. repeat split; [discriminate | now right].
    + exists t. apply Z.eqb_neq in E. repeat split; [assumption | now left].
  - intros t -> Ht. apply Z.eqb_neq in Ht. now rewrite Ht.
Qed.

End StreamEdges.

(* --------------------------------------------------------------------- *)
(** ** The state of the client *)

Module ClientState.

Import RequestFacts.

Lemma lookup_set_prop_other :
  forall (A : Type) k k' (v : A) props,
    str_eqb k k' = false -> lookup k (set_prop k' v props) = lookup k props.
Proof.
  intros A k k' v props Hk. induction props as [|[k0 v0] rest IH]; simpl.
  - now rewrite Hk.
  - destruct (str_eqb k' k0) eqn:E; simpl.
    + apply str_eqb_eq in E. subst k0. now rewrite Hk.
    + now rewrite IH.
Qed.

Lemma set_prop_twice :
  forall (A : Type) k (v : A) props,
    set_prop k v (set_prop k v props) = set_prop k v props.
Proof.
  intros A k v props. induction props as [|[k0 v0] rest IH]; simpl.
  - now rewrite str_eqb_refl.
  - destruct (str_eqb k k0) eqn:E; simpl; rewrite E; [reflexivity|].
    now rewrite IH.
Qed.

(** X10.  [addAuthentication] touches nothing but the Authorization header:
    every other header of the caller reaches ky with its value, the other
    options are handed over as they are, and authenticating options that
    are already authenticated changes nothing. *)
Theorem addAuthentication_keeps_the_rest :
  forall c options endpoint name,
    str_eqb name (js "Authorization") = false ->
    let sent := addAuthentication c options endpoint in
    lookup name (spread_headers (Options.headers sent)) =
      lookup name (spread_headers (Options.headers options))
    /\ Options.method sent = Options.method options
    /\ Options.searchParams sent = Options.searchParams options
    /\ Options.timeout sent = Options.timeout options
    /\ Options.retry sent = Options.retry options
    /\ Options.json sent = Options.json options
    /\ Options.body sent = Options.body options
    /\ addAuthentication c sent endpoint = sent.
Proof.
  intros c options endpoint name Hname sent. subst sent.
  unfold addAuthentication. simpl.
  destruct (basicAuth c) as [auth|]; repeat split.
  - now apply lookup_set_prop_other.
  - now rewrite set_prop_twice.
Qed.

Lemma addAuthentication_keeps_the_rest_witness :
  lookup (js "X-Request-Id")
    (spread_headers
       (Options.headers
          (addAuthentication client
             {| Options.method := None; Options.searchParams := None;
                Options.headers := Some [(js "X-Request-Id", js "42")];
                Options.timeout := None; Options.retry := None;
                Options.json := JUndefined; Options.body := None |}
             (js "api/domains")))) = Some (js "42").
Proof.
  exact (proj1 (@addAuthentication_keeps_the_rest client
                  {| Options.method := None; Options.searchParams := None;
                     Options.headers := Some [(js "X-Request-Id", js "42")];
                     Options.timeout := None; Options.retry := None;
                     Options.json := JUndefined; Options.body := None |}
                  (js "api/domains") (js "X-Request-Id") eq_refl)).
Defined.

(** X11.  However a client was made and changed, its ky instance is the one
    that [ky.create] makes for its current base URL: every request, by any
    of the six methods, goes out with what [getBaseUrl] returns as its
    prefix, with the timeout of 30000 and the retry configuration of the
    constructor; [setBasicAuth] leaves the base URL alone and [setBaseUrl]
    leaves the credentials alone. *)
Theorem client_instance_follows_the_base_url :
  forall c,
    reachable c ->
    kyInstance c = ky_create (getBaseUrl c)
    /\ prefixUrl (kyInstance c) = getBaseUrl c
    /\ (forall ky r, prefixUrl (instance (issued ky c r)) = getBaseUrl c)
    /\ (forall u t, getBaseUrl (setBasicAuth c u t) = getBaseUrl c)
    /\ (forall b, basicAuth (setBaseUrl c b) = basicAuth c).
Proof.
  intros c Hc.
  assert (H : kyInstance c = ky_create (getBaseUrl c))
    by (induction Hc; reflexivity || assumption).
  repeat split; [exact H | now rewrite H |].
  intros ky r. destruct r; simpl; now rewrite H.
Qed.

Lemma client_instance_follows_the_base_url_witness :
  prefixUrl (kyInstance (setBasicAuth (setBaseUrl client (js "https://example.com/"))
                           (js "u") (js "t"))) = js "https://example.com".
Proof.
  apply (@client_instance_follows_the_base_url
           (setBasicAuth (setBaseUrl client (js "https://example.com/"))
              (js "u") (js "t"))).
  repeat constructor.
Defined.

Lemma strip_added_slash :
  forall b, strip_trailing_slash (b ++ [47%N]) = b.
Proof.
  intro b. unfold strip_trailing_slash, endsWith.
  rewrite rev_app_distr. simpl. apply removelast_last.
Qed.

(** X12.  The constructor and [setBaseUrl] remove exactly one trailing
    slash: a base URL written with one more slash gives the base URL
    without it (so two trailing slashes leave one), and a base URL that
    does not end in a slash is kept as it is. *)
Theorem base_url_loses_one_trailing_slash :
  forall username token c b,
    getBaseUrl (new_SmtpClient username token (Some (b ++ js "/"))) = b
    /\ getBaseUrl (setBaseUrl c (b ++ js "/")) = b
    /\ (endsWith (js "/") b = false ->
        getBaseUrl (new_SmtpClient username token (Some b)) = b
        /\ new_SmtpClient username token (Some (b ++ js "/")) =
           new_SmtpClient username token (Some b)).
Proof.
  intros username token c b.
  change (js "/") with [47%N].
  unfold getBaseUrl, new_SmtpClient, setBaseUrl. simpl.
  rewrite !strip_added_slash. repeat split.
  - unfold strip_trailing_slash. now rewrite H.
  - unfold strip_trailing_slash. now rewrite H.
Qed.

(** X13.  The constructor takes credentials only when both the username and
    the token are given and not empty, while [setBasicAuth] takes any pair,
    the empty strings too: after it the client has credentials and sends
    the header made of them. *)
Theorem credentials_at_construction_and_after :
  forall username token baseUrl c u t ky r,
    (hasBasicAuth (new_SmtpClient username token baseUrl) = true <->
     exists u0 u' t0 t', username = Some (u0 :: u') /\ token = Some (t0 :: t'))
    /\ hasBasicAuth (setBasicAuth c u t) = true
    /\ lookup (js "Authorization")
         (sent_headers (issued ky (setBasicAuth c [] []) r)) =
       Some (js "Basic Og==").
Proof.
  intros username token baseUrl c u t ky r. repeat split.
  - unfold hasBasicAuth, new_SmtpClient. simpl.
    destruct username as [[|u0 u']|]; destruct token as [[|t0 t']|];
      simpl; intro H; try discriminate.
    now exists u0, u', t0, t'.
  - intros (u0 & u' & t0 & t' & -> & ->). reflexivity.
  - rewrite AuthClaims.sent_headers_issued. simpl. apply lookup_set_prop_same.
Qed.

End ClientState.

(* --------------------------------------------------------------------- *)
(** ** [extractDomainFromEndpoint] *)

Module EndpointFacts.

Lemma take_segment_app :
  forall d rest,
    ~ In 47%N d -> (rest = [] \/ exists r, rest = 47%N :: r) ->
    take_segment (d ++ rest) = d.
Proof.
  intros d rest Hd Hrest. induction d as [|c d IH]; simpl.
  - destruct Hrest as [->|[r ->]]; reflexivity.
  - assert (E : (c =? 47)%N = false).
    { apply N.eqb_neq. intro; subst. apply Hd. now left. }
    rewrite E, IH; [reflexivity|]. intro Hin. apply Hd. now right.
Qed.

Lemma take_segment_split :
  forall s, exists rest,
    s = take_segment s ++ rest
    /\ ~ In 47%N (take_segment s)
    /\ (rest = [] \/ exists r, rest = 47%N :: r).
Proof.
  induction s as [|c s (rest & Hs & Hno & Hrest)]; simpl.
  - exists []. repeat split; [intros [] | now left].
  - destruct (c =? 47)%N eqn:E.
    + apply N.eqb_eq in E. subst c. exists (47%N :: s).
      repeat split; [intros [] | right; now exists s].
    + exists rest. repeat split.
      * simpl. now rewrite <- Hs.
      * intros [H|H]; [subst; now rewrite N.eqb_refl in E | now apply Hno].
      * exact Hrest.
Qed.

Lemma startsWith_prefix :
  forall p s, startsWith p s = true -> s = p ++ skipn (List.length p) s.
Proof.
  induction p as [|x p IH]; intros s H; [reflexivity|].
  destruct s as [|y s]; [discriminate|].
  simpl in H. apply andb_true_iff in H. destruct H as [Hx Hp].
  apply N.eqb_eq in Hx. subst y. simpl. now rewrite <- IH.
Qed.

(** X14.  For an endpoint that begins with [/api/domains/] followed by a
    domain name (not empty, without a slash) and then ends or goes on with
    a slash, [extractDomainFromEndpoint] returns that domain name. *)
Theorem extractDomain_of_a_domain_endpoint :
  forall domain rest,
    domain <> [] ->
    ~ In 47%N domain ->
    (rest = [] \/ exists r, rest = 47%N :: r) ->
    extractDomainFromEndpoint (js "/api/domains/" ++ domain ++ rest) = Some domain.
Proof.
  intros domain rest Hne Hno Hrest.
  change (js "/api/domains/")
    with [47; 97; 112; 105; 47; 100; 111; 109; 97; 105; 110; 115; 47]%N.
  cbn [app extractDomainFromEndpoint].
  change (js "/api/domains/")
    with [47; 97; 112; 105; 47; 100; 111; 109; 97; 105; 110; 115; 47]%N.
  cbn [startsWith N.eqb Pos.eqb andb skipn].
  rewrite take_segment_app by assumption.
  destruct domain; [contradiction | reflexivity].
Qed.

Lemma extractDomain_of_a_domain_endpoint_witness :
  extractDomainFromEndpoint (js "/api/domains/example.com/credentials") =
  Some (js "example.com").
Proof.
  apply (@extractDomain_of_a_domain_endpoint (js "example.com") (js "/credentials")).
  - discriminate.
  - intro Hin. vm_compute in Hin. intuition discriminate.
  - right. eexists. reflexivity.
Defined.

(** X15.  Whatever [extractDomainFromEndpoint] returns is not empty, holds no
    slash, and stands in the endpoint right after [/api/domains/] and before
    a slash or the end; so an endpoint written without the leading slash,
    as [api/domains/] followed by a name, gives [null]. *)
Theorem extractDomain_result :
  forall endpoint,
    (forall domain,
       extractDomainFromEndpoint endpoint = Some domain ->
       domain <> []
       /\ ~ In 47%N domain
       /\ exists before after,
            endpoint = before ++ js "/api/domains/" ++ domain ++ after
            /\ (after = [] \/ exists r, after = 47%N :: r))
    /\ (forall name,
          ~ In 47%N name ->
          extractDomainFromEndpoint (js "api/domains/" ++ name) = None).
Proof.
  assert (Hres : forall endpoint domain,
            extractDomainFromEndpoint endpoint = Some domain ->
            domain <> []
            /\ ~ In 47%N domain
            /\ exists before after,
                 endpoint = before ++ js "/api/domains/" ++ domain ++ after
                 /\ (after = [] \/ exists r, after = 47%N :: r)).
  { induction endpoint as [|c rest IH]; intros domain H; [discriminate|].
    cbn [extractDomainFromEndpoint] in H.
    destruct (startsWith (js "/api/domains/") (c :: rest)) eqn:Ep.
    - destruct (take_segment (skipn 13 (c :: rest))) as [|d0 d] eqn:Es.
      + destruct (IH _ H) as (Hne & Hno & before & after & -> & Hafter).
        repeat split; try assumption.
        exists (c :: before), after. split; [reflexivity | assumption].
      + inversion H; subst domain.
        destruct (take_segment_split (skipn 13 (c :: rest)))
          as (after & Hsplit & Hno & Hafter).
        rewrite Es in Hsplit, Hno.
        repeat split; [discriminate | assumption |].
        exists [], after. split; [|assumption].
        pose proof (startsWith_prefix _ _ Ep) as Hp.
        change (List.length (js "/api/domains/")) with 13%nat in Hp.
        rewrite Hsplit in Hp. exact Hp.
    - destruct (IH _ H) as (Hne & Hno & before & after & -> & Hafter).
      repeat split; try assumption.
      exists (c :: before), after. split; [reflexivity | assumption]. }
  intro endpoint. split; [apply Hres|].
  intros name Hname.
  destruct (extractDomainFromEndpoint (js "api/domains/" ++ name)) as [domain|] eqn:E;
    [|reflexivity].
  exfalso.
  destruct (Hres _ _ E) as (_ & _ & before & after & Heq & _).
  assert (Hcount : forall l, count_occ N.eq_dec (l ++ js "/api/domains/" ++ domain ++ after) 47%N >= 3).
  { intro l. rewrite !count_occ_app. simpl. lia. }
  specialize (Hcount before). rewrite <- Heq in Hcount.
  rewrite count_occ_app in Hcount. simpl in Hcount.
  rewrite (proj1 (count_occ_not_In N.eq_dec name 47%N) Hname) in Hcount. lia.
Qed.

End EndpointFacts.

(* --------------------------------------------------------------------- *)
(** ** Multipart bodies *)

Module MultipartFacts.

Local Open Scope N_scope.

Lemma append_items :
  forall (items : list JsValue) (name : jsstring) (formData : FormData),
    fold_left (fun fd item => FormData_append fd name (ToString item)) items formData =
    formData ++ map (fun item => (toWellFormed name,
                                  FormText (toWellFormed (ToString item)))) items.
Proof.
  induction items as [|item rest IH]; intros name formData; simpl.
  - now rewrite app_nil_r.
  - rewrite IH. unfold FormData_append. now rewrite <- app_assoc.
Qed.

Lemma fold_add_field :
  forall (data : list (jsstring * JsValue)) (formData : FormData),
    fold_left add_field data formData =
    formData ++
    flat_map (fun kv =>
                match snd kv with
                | JArr items =>
                    map (fun item => (toWellFormed (fst kv ++ js "[]"),
                                      FormText (toWellFormed (ToString item)))) items
                | value => [(toWellFormed (fst kv),
                             FormText (toWellFormed (ToString value)))]
                end) data.
Proof.
  induction data as [|[k v] rest IH]; intro formData; cbn [fold_left flat_map].
  - now rewrite app_nil_r.
  - rewrite IH, app_assoc. f_equal. unfold add_field. cbn [fst snd].
    destruct v; try reflexivity. apply append_items.
Qed.

Lemma fold_add_file :
  forall (files : list FileUpload) (formData : FormData),
    fold_left add_file files formData =
    formData ++
    map (fun file =>
           (toWellFormed (field file),
            FormBlob
              match content file with
              | TextContent text => utf8_encode text
              | BufferContent bytes => bytes
              end
              (Blob_type
                 (or_default (contentType file)
                    match content file with
                    | TextContent _ => js "text/plain"
                    | BufferContent _ => js "application/octet-stream"
                    end))
              (toWellFormed (filename file)))) files.
Proof.
  induction files as [|file rest IH]; intro formData; cbn [fold_left map].
  - now rewrite app_nil_r.
  - rewrite IH. unfold add_file, FormData_append_blob, new_Blob.
    rewrite <- app_assoc. f_equal. cbn [app]. f_equal.
    destruct (content file); reflexivity.
Qed.

(** X16.  The body of [postMultipart] holds the parts of the fields in the
    order of the record, followed by one part for every file, in order.  A
    field whose value is not an array gives one text part under its key,
    the text being the value converted to a string (so undefined and an
    object are sent as the texts [undefined] and [[object Object]]); an
    array gives one part for every element under the key followed by [[]],
    and none when it is empty.  Keys, texts and file names are made well
    formed.  A file part carries the bytes of the content (UTF-8 for a
    string) and, as its type, the content type given, or [text/plain] for a
    string and [application/octet-stream] for a buffer when none is given;
    the type is put in lower case, and it is empty when the content type
    holds a character outside the printable ASCII range. *)
Theorem multipart_body_parts :
  forall ky c endpoint data files options,
    Options.body (Client.options
                    (fst (postMultipart ky c endpoint (Some data) (Some files) options)))
    = Some
        (flat_map
           (fun kv =>
              match snd kv with
              | JArr items =>
                  map (fun item => (toWellFormed (fst kv ++ js "[]"),
                                    FormText (toWellFormed (ToString item)))) items
              | value => [(toWellFormed (fst kv),
                           FormText (toWellFormed (ToString value)))]
              end) data
         ++ map (fun file =>
                   (toWellFormed (field file),
                    FormBlob
                      match content file with
                      | TextContent text => utf8_encode text
                      | BufferContent bytes => bytes
                      end
                      (Blob_type
                         (or_default (contentType file)
                            match content file with
                            | TextContent _ => js "text/plain"
                            | BufferContent _ => js "application/octet-stream"
                            end))
                      (toWellFormed (filename file)))) files)
    /\ (forall type,
          Forall (fun x => 32 <= x <= 126 /\ ~ 65 <= x <= 90) (Blob_type type))
    /\ (forall type x, In x type -> x < 32 \/ 126 < x -> Blob_type type = [])
    /\ Blob_type (js "text/plain") = js "text/plain"
    /\ Blob_type (js "application/octet-stream") = js "application/octet-stream"
    /\ Blob_type (js "Text/HTML") = js "text/html"
    /\ ToString JUndefined = js "undefined"
    /\ (forall props, ToString (JObj props) = js "[object Object]").
Proof.
  intros ky c endpoint data files options.
  split; [|split; [|split; [|repeat split]]].
  - unfold postMultipart, makeRequest.
    cbn [fst Client.options Options.body with_method addAuthentication].
    now rewrite fold_add_field, fold_add_file.
  - intro type. unfold Blob_type.
    destruct (forallb _ type) eqn:E; [|constructor].
    apply Forall_forall. intros x Hin. apply in_map_iff in Hin.
    destruct Hin as (y & <- & Hy).
    pose proof (proj1 (forallb_forall _ _) E y Hy) as Hb.
    apply andb_true_iff in Hb. destruct Hb as [H1 H2].
    apply N.leb_le in H1, H2.
    destruct ((65 <=? y) && (y <=? 90)) eqn:Eu.
    + apply andb_true_iff in Eu. destruct Eu as [E1 E2].
      apply N.leb_le in E1, E2. lia.
    + apply andb_false_iff in Eu.
      destruct Eu as [Eu|Eu]; apply N.leb_gt in Eu; lia.
  - intros type x Hin Hout. unfold Blob_type.
    destruct (forallb _ type) eqn:E; [|reflexivity].
    pose proof (proj1 (forallb_forall _ _) E x Hin) as Hb.
    apply andb_true_iff in Hb. destruct Hb as [H1 H2].
    apply N.leb_le in H1, H2. lia.
Qed.

End MultipartFacts.

(* --------------------------------------------------------------------- *)
(** ** The methods of [ApiException] *)

Module ExceptionFacts.

Import ApiExceptionMethods.

(** X17.  An exception that [hasErrors] denies has no error messages; the
    converse does not hold: an exception whose fields all have an empty
    list has errors and no message. *)
Theorem no_errors_no_messages :
  (forall e, hasErrors e = false -> getErrorMessages e = [])
  /\ exists e, hasErrors e = true /\ getErrorMessages e = [].
Proof.
  split.
  - intros e H. unfold hasErrors, getErrorMessages in *.
    destruct (errors e) as [| |b|m x|str|items|props|shown|settled];
      simpl in *; try reflexivity.
    + destruct b; reflexivity.
    + destruct (negb (Double.eqb _ _)); reflexivity.
    + destruct str; simpl in *; [reflexivity|].
      unfold index_keys in H. rewrite length_map, length_seq in H. discriminate.
    + destruct items; [reflexivity|].
      unfold index_keys in H. rewrite length_map, length_seq in H. discriminate.
    + destruct props; [reflexivity | discriminate].
  - exists (new_ValidationException (JStr (js "Invalid"))
              (JObj [(js "email", JArr [])])).
    split; reflexivity.
Qed.

(** X18.  For a map of field errors (a plain object whose values are
    arrays), [getErrorForField] returns for every field of the map its own
    list, for a field that is not in the map (and not a member of every
    object) the empty list, and [getErrorMessages] is the lists of all the
    fields put end to end in the order of the fields. *)
Theorem field_errors_and_flat_messages :
  forall e props,
    errors e = JObj props ->
    NoDup (map fst props) ->
    Forall (fun kv => exists items, snd kv = JArr items) props ->
    (forall field list, In (field, list) props ->
       getErrorForField e field = Some list)
    /\ (forall field,
          ~ In field (map fst props) ->
          existsb (str_eqb field) inherited_names = false ->
          getErrorForField e field = Some (JArr []))
    /\ getErrorMessages e =
       flat_map (fun kv => match snd kv with JArr items => items | _ => [] end) props.
Proof.
  intros e props He Hnd Harr. repeat split.
  - intros field list Hin. unfold getErrorForField. rewrite He.
    rewrite (lookup_in_nodup _ props field list Hnd Hin).
    rewrite Forall_forall in Harr. destruct (Harr _ Hin) as [items Hitems].
    simpl in Hitems. subst list. reflexivity.
  - intros field Hnot Hinh. unfold getErrorForField. rewrite He.
    assert (Hl : lookup field props = None).
    { clear -Hnot. induction props as [|[k v] rest IH]; [reflexivity|].
      simpl in *. destruct (str_eqb field k) eqn:E.
      - apply str_eqb_eq in E. subst. exfalso. apply Hnot. now left.
      - apply IH. intro H. apply Hnot. now right. }
    now rewrite Hl, Hinh.
  - unfold getErrorMessages. rewrite He. simpl. unfold flat.
    clear He Hnd. induction Harr as [|[k v] rest [items Hv] _ IH]; [reflexivity|].
    simpl in *. subst v. now rewrite IH.
Qed.

Lemma field_errors_and_flat_messages_witness :
  getErrorMessages
    (new_ValidationException (JStr (js "Invalid"))
       (JObj [(js "email", JArr [JStr (js "required"); JStr (js "malformed")]);
              (js "name", JArr [JStr (js "too long")])])) =
  [JStr (js "required"); JStr (js "malformed"); JStr (js "too long")].
Proof.
  apply (@field_errors_and_flat_messages
           (new_ValidationException (JStr (js "Invalid"))
              (JObj [(js "email", JArr [JStr (js "required"); JStr (js "malformed")]);
                     (js "name", JArr [JStr (js "too long")])]))
           [(js "email", JArr [JStr (js "required"); JStr (js "malformed")]);
            (js "name", JArr [JStr (js "too long")])]).
  - reflexivity.
  - repeat constructor; simpl; intuition discriminate.
  - repeat constructor; eexists; reflexivity.
Defined.

End ExceptionFacts.

(* --------------------------------------------------------------------- *)
(** ** Validation of a message *)

Module ValidationFacts.

Import MessagesApi.

Ltac by_fields message :=
  destruct (truthy (get_prop message (js "from")));
  destruct (truthy (get_prop message (js "to")));
  destruct (truthy (get_prop message (js "subject")));
  destruct (truthy (get_prop message (js "text")));
  destruct (truthy (get_prop message (js "html"))).

(** X19.  For a message that is [undefined] or [null], [validateMessage]
    is rejected with a [TypeError].  For every other message it returns a
    result: it accepts exactly when [from], [to] and [subject] are truthy
    and one of [text] and [html] is; it gives the list of errors exactly
    when it rejects, and the list then has between one and four entries.
    Any array of recipients is truthy, the empty one too, so a message
    without a single recipient is accepted. *)
Theorem validateMessage_accepts :
  (forall message,
     message = JUndefined \/ message = JNull ->
     exists error,
       validateMessage message = Throws error
       /\ error_name error = js "TypeError")
  /\ (forall message,
        message <> JUndefined -> message <> JNull ->
        exists result,
          validateMessage message = Returns result
          /\ valid result =
               truthy (get_prop message (js "from"))
               && truthy (get_prop message (js "to"))
               && truthy (get_prop message (js "subject"))
               && (truthy (get_prop message (js "text"))
                   || truthy (get_prop message (js "html")))
          /\ (valid result = true <-> validation_errors result = None)
          /\ (forall errors,
                validation_errors result = Some errors ->
                (1 <= List.length errors <= 4)%nat))
  /\ (forall sender subject text,
        sender <> [] -> subject <> [] -> text <> [] ->
        validateMessage
          (JObj [(js "from", JStr sender); (js "to", JArr []);
                 (js "subject", JStr subject); (js "text", JStr text)])
        = Returns {| valid := true; validation_errors := None |}).
Proof.
  split; [|split].
  - intros message [->| ->]; eexists; split; reflexivity.
  - intros message Hu Hn. exists (check_message message).
    split; [destruct message; try reflexivity; congruence|].
    unfold check_message, push_unless.
    split; [|split].
    + by_fields message; reflexivity.
    + by_fields message; simpl; split; intro H; try reflexivity; discriminate.
    + intros errors.
      by_fields message; simpl; intro H; inversion H; subst; simpl; lia.
  - intros sender subject text Hs Hj Ht.
    destruct sender; [contradiction|].
    destruct subject; [contradiction|].
    destruct text; [contradiction|]. reflexivity.
Qed.

End ValidationFacts.

(* --------------------------------------------------------------------- *)
(** ** Pagination *)

(** Facts about the arithmetic of numbers. *)
Module DoubleFacts.

Import Double.

Local Open Scope Z_scope.

Lemma scale_up : forall x k, 0 <= k -> scale x k = x * 2 ^ k.
Proof. intros x k H. unfold scale. now rewrite Z.max_l. Qed.

Lemma scale_down : forall x k, k <= 0 -> scale x k = x.
Proof. intros x k H. unfold scale. rewrite Z.max_r by exact H. apply Z.mul_1_r. Qed.

Lemma round_half_even_unit : forall x, round_half_even x 1 = x.
Proof.
  intro x. unfold round_half_even. rewrite Z.mod_1_r, Z.div_1_r. reflexivity.
Qed.

Lemma round_half_even_bounds :
  forall num den,
    0 <= num -> 0 < den ->
    num / den <= round_half_even num den
    /\ 2 * round_half_even num den * den <= 2 * num + den.
Proof.
  intros num den Hn Hd. unfold round_half_even.
  pose proof (Z.div_mod num den ltac:(lia)) as Hdm.
  pose proof (Z.mod_pos_bound num den Hd) as Hr.
  destruct (2 * (num mod den) <? den) eqn:E1.
  - apply Z.ltb_lt in E1. split; [lia | nia].
  - apply Z.ltb_ge in E1. destruct (den <? 2 * (num mod den)) eqn:E2.
    + apply Z.ltb_lt in E2. split; [lia | nia].
    + apply Z.ltb_ge in E2. destruct (Z.even (num / den)); split; lia || nia.
Qed.

(** The binary logarithm that [ilog2] gives is not above that of the
    ratio, and within one of the difference of the logarithms. *)
Lemma ilog2_spec :
  forall num den,
    0 < num -> 0 < den ->
    scale den (ilog2 num den) <= scale num (- ilog2 num den)
    /\ Z.log2 num - Z.log2 den - 1 <= ilog2 num den <= Z.log2 num - Z.log2 den.
Proof.
  intros num den Hn Hd. unfold ilog2.
  pose proof (Z.log2_spec num Hn) as [Hn1 Hn2].
  pose proof (Z.log2_spec den Hd) as [Hd1 Hd2].
  pose proof (Z.log2_nonneg num) as Hln. pose proof (Z.log2_nonneg den) as Hld.
  set (la := Z.log2 num) in *. set (lb := Z.log2 den) in *.
  destruct (scale den (la - lb) <=? scale num (- (la - lb))) eqn:E.
  - apply Z.leb_le in E. split; [exact E | lia].
  - split; [|lia]. clear E.
    destruct (Z.le_gt_cases 0 (la - lb - 1)) as [Hpos|Hneg].
    + rewrite scale_up, scale_down by lia.
      assert (H : 2 ^ la = 2 ^ Z.succ lb * 2 ^ (la - lb - 1)).
      { rewrite <- Z.pow_add_r by lia. f_equal. lia. }
      assert (0 < 2 ^ (la - lb - 1)) by (apply Z.pow_pos_nonneg; lia).
      nia.
    + rewrite scale_down, scale_up by lia.
      assert (H : 2 ^ Z.succ lb = 2 ^ la * 2 ^ (- (la - lb - 1))).
      { rewrite <- Z.pow_add_r by lia. f_equal. lia. }
      assert (0 < 2 ^ (- (la - lb - 1))) by (apply Z.pow_pos_nonneg; lia).
      nia.
Qed.

Lemma ilog2_unit : forall a, 0 < a -> ilog2 a 1 = Z.log2 a.
Proof.
  intros a Ha. unfold ilog2. change (Z.log2 1) with 0. rewrite Z.sub_0_r.
  pose proof (Z.log2_nonneg a). pose proof (Z.log2_spec a Ha) as [H1 _].
  rewrite scale_up, scale_down by lia.
  replace (1 * 2 ^ Z.log2 a <=? a) with true; [reflexivity|].
  symmetry. apply Z.leb_le. lia.
Qed.

Lemma sgn_abs : forall z, Z.sgn z * Z.abs z = z.
Proof. intros [|p|p]; reflexivity. Qed.

(** Integers up to [2^53] are numbers: rounding leaves them as they are. *)
Lemma round_safe : forall z, Z.abs z <= 2 ^ 53 -> round z = Int z.
Proof.
  intros z Hz.
  destruct (Z.eq_dec (Z.abs z) (2 ^ 53)) as [Hmax|Hlt].
  - assert (Hc : z = 2 ^ 53 \/ z = - 2 ^ 53) by lia.
    destruct Hc as [-> | ->]; vm_compute; reflexivity.
  - destruct (Z.eq_dec z 0) as [-> | Hnz]; [reflexivity|].
    unfold round, of_ratio.
    set (a := Z.abs z). assert (Ha : 0 < a < 2 ^ 53) by (subst a; lia).
    replace (a =? 0) with false by (symmetry; apply Z.eqb_neq; lia).
    rewrite ilog2_unit by lia.
    pose proof (Z.log2_nonneg a) as Hl0.
    assert (Hl : Z.log2 a < 53) by (apply Z.log2_lt_pow2; lia).
    pose proof (Z.log2_spec a ltac:(lia)) as [_ Hup].
    set (L := Z.log2 a) in *.
    rewrite (Z.max_l (L - 52) (-1074)) by lia.
    rewrite (scale_up a (- (L - 52))) by lia.
    rewrite (scale_down 1 (L - 52)) by lia.
    rewrite round_half_even_unit.
    assert (Hp : 0 < 2 ^ (- (L - 52))) by (apply Z.pow_pos_nonneg; lia).
    assert (Hs : 2 ^ Z.succ L * 2 ^ (- (L - 52)) = 2 ^ 53).
    { rewrite <- Z.pow_add_r by lia. f_equal. lia. }
    replace (a * 2 ^ (- (L - 52)) =? 0) with false
      by (symmetry; apply Z.eqb_neq; nia).
    replace (a * 2 ^ (- (L - 52)) =? 2 ^ 53) with false
      by (symmetry; apply Z.eqb_neq; nia).
    replace (971 <? L - 52) with false by (symmetry; apply Z.ltb_ge; lia).
    rewrite (scale_down _ (L - 52)) by lia.
    rewrite (scale_up 1 (- (L - 52))) by lia.
    rewrite Z.mul_1_l, Z.div_mul by lia.
    now rewrite sgn_abs.
Qed.

(** The quotient of two integers below [2^53], rounded and then cut to an
    integer, is the integer part of the exact quotient. *)
Lemma floor_div_safe :
  forall a b,
    0 <= a < 2 ^ 53 -> 0 < b < 2 ^ 53 -> floor_div a b = Int (a / b).
Proof.
  intros a b Ha Hb. unfold floor_div, of_ratio.
  rewrite Z.abs_eq by lia.
  destruct (a =? 0) eqn:E0.
  - apply Z.eqb_eq in E0. subst a. now rewrite Z.div_0_l by lia.
  - apply Z.eqb_neq in E0.
    destruct (ilog2_spec a b ltac:(lia) ltac:(lia)) as [Hlow HL].
    pose proof (Z.log2_nonneg a) as Hla0. pose proof (Z.log2_nonneg b) as Hlb0.
    assert (Hla : Z.log2 a < 53) by (apply Z.log2_lt_pow2; lia).
    assert (Hlb : Z.log2 b < 53) by (apply Z.log2_lt_pow2; lia).
    set (L := ilog2 a b) in *.
    rewrite (Z.max_l (L - 52) (-1074)) by lia.
    rewrite (scale_up a (- (L - 52))) by lia.
    rewrite (scale_down b (L - 52)) by lia.
    set (K := - (L - 52)). assert (HK : 0 <= K) by (subst K; lia).
    set (P := 2 ^ K). assert (HP : 0 < P) by (apply Z.pow_pos_nonneg; lia).
    (* the ratio is at least 2^L *)
    assert (Hbig : b * 2 ^ 52 <= a * P).
    { destruct (Z.le_gt_cases 0 L) as [Hpos|Hneg].
      - rewrite scale_up, scale_down in Hlow by lia.
        assert (Hs : 2 ^ L * P = 2 ^ 52).
        { unfold P. rewrite <- Z.pow_add_r by lia. f_equal. subst K. lia. }
        rewrite <- Hs. nia.
      - rewrite scale_down, scale_up in Hlow by lia.
        assert (Hs : P = 2 ^ (- L) * 2 ^ 52).
        { unfold P. rewrite <- Z.pow_add_r by lia. f_equal. subst K. lia. }
        rewrite Hs. nia. }
    (* twice the scale is above the divisor *)
    assert (Hwide : b < 2 * P).
    { destruct (Z.le_gt_cases 0 L) as [Hpos|Hneg].
      - rewrite scale_up, scale_down in Hlow by lia.
        assert (Hs : 2 ^ L * (2 * P) = 2 ^ 53).
        { unfold P. change 2 with (2 ^ 1) at 2. rewrite <- !Z.pow_add_r by lia.
          f_equal. subst K. lia. }
        assert (0 < 2 ^ L) by (apply Z.pow_pos_nonneg; lia). nia.
      - assert (Hs : 2 ^ 53 <= 2 * P).
        { unfold P. change 2 with (2 ^ 1) at 2. rewrite <- Z.pow_add_r by lia.
          apply Z.pow_le_mono_r; subst K; lia. }
        lia. }
    destruct (round_half_even_bounds (a * P) b ltac:(nia) ltac:(lia)) as [Hm1 Hm2].
    set (m := round_half_even (a * P) b) in *.
    assert (Hm52 : 2 ^ 52 <= m).
    { etransitivity; [|exact Hm1]. apply Z.div_le_lower_bound; lia. }
    assert (H52 : 0 < 2 ^ 52) by (apply Z.pow_pos_nonneg; lia).
    replace (m =? 0) with false by (symmetry; apply Z.eqb_neq; lia).
    (* the integer part of the rounded quotient *)
    assert (Hfloor : m / P = a / b).
    { pose proof (Z.div_mod a b ltac:(lia)) as Hdm.
      pose proof (Z.mod_pos_bound a b ltac:(lia)) as Hr.
      symmetry. apply (Z.div_unique m P (a / b) (m - P * (a / b))); [|lia].
      left. split.
      - assert (a / b * P <= a * P / b); [|lia].
        apply Z.div_le_lower_bound; [lia|]. nia.
      - nia. }
    destruct (m =? 2 ^ 53) eqn:E53.
    + apply Z.eqb_eq in E53.
      replace (971 <? L - 52 + 1) with false by (symmetry; apply Z.ltb_ge; lia).
      replace (0 <=? a) with true by (symmetry; apply Z.leb_le; lia).
      f_equal. rewrite <- Hfloor, E53.
      destruct (Z.eq_dec K 0) as [HK0|HK0].
      * replace (L - 52 + 1) with 1 by (subst K; lia).
        unfold P. rewrite HK0. reflexivity.
      * rewrite (scale_down _ (L - 52 + 1)) by (subst K; lia).
        rewrite (scale_up 1 (- (L - 52 + 1))) by (subst K; lia).
        rewrite Z.mul_1_l.
        assert (Hs : P = 2 * 2 ^ (- (L - 52 + 1))).
        { unfold P. change 2 with (2 ^ 1) at 2. rewrite <- Z.pow_add_r by (subst K; lia).
          f_equal. subst K. lia. }
        rewrite Hs. change (2 ^ 53) with (2 * 2 ^ 52).
        rewrite Z.div_mul_cancel_l; [reflexivity| |lia].
        apply Z.pow_nonzero; subst K; lia.
    + replace (971 <? L - 52) with false by (symmetry; apply Z.ltb_ge; lia).
      replace (0 <=? a) with true by (symmetry; apply Z.leb_le; lia).
      f_equal. rewrite <- Hfloor.
      rewrite (scale_down _ (L - 52)) by lia.
      rewrite (scale_up 1 (- (L - 52))) by lia.
      now rewrite Z.mul_1_l.
Qed.

End DoubleFacts.

Module PaginationFacts.

Import Pagination DoubleFacts.

(** X20.  With a page size that is positive and a safe integer: for a page
    from 1 on whose last item index is a safe integer, the offset of the
    page is the exact product and the page of the first item of a page is
    that page; and every item index that is a safe integer lies within the
    page computed for it, from the offset of that page up to, not
    including, the offset plus the page size.  Beyond the safe integers the
    products are rounded and this fails: with a page size of 3, page
    3002399751580332 has the offset 9007199254740992, which belongs to page
    3002399751580331. *)
Theorem pages_and_offsets_agree :
  forall p page index,
    (0 < getItemsPerPage p <= MAX_SAFE_INTEGER)%Z ->
    ((1 <= page)%Z -> (page * getItemsPerPage p <= MAX_SAFE_INTEGER)%Z ->
     getOffsetForPage p page = Double.Int ((page - 1) * getItemsPerPage p)%Z
     /\ getPageForItemIndex p ((page - 1) * getItemsPerPage p)%Z = Double.Int page)
    /\ ((0 <= index <= MAX_SAFE_INTEGER)%Z ->
        exists pg off,
          getPageForItemIndex p index = Double.Int pg
          /\ getOffsetForPage p pg = Double.Int off
          /\ (off <= index < off + getItemsPerPage p)%Z)
    /\ (let q := fromAPI {| total := None; per_page := Some 3%Z;
                            current_page := None; last_page := None;
                            count := None; offset := None; limit := None |} in
        getOffsetForPage q 3002399751580332%Z = Double.Int 9007199254740992%Z
        /\ getPageForItemIndex q 9007199254740992%Z
           = Double.Int 3002399751580331%Z).
Proof.
  intros p page index Hper.
  unfold getPageForItemIndex, getOffsetForPage, MAX_SAFE_INTEGER in *.
  assert (E : (getItemsPerPage p <=? 0)%Z = false) by (apply Z.leb_gt; lia).
  rewrite E. set (per := getItemsPerPage p) in *.
  split; [|split].
  - intros Hpage Hlast.
    rewrite (round_safe (page - 1)%Z) by nia.
    rewrite (round_safe ((page - 1) * per)%Z) by nia.
    split; [reflexivity|].
    rewrite floor_div_safe by nia.
    rewrite Z.div_mul by lia.
    rewrite round_safe by nia. f_equal. lia.
  - intros Hindex.
    pose proof (Z.div_mod index per ltac:(lia)) as Hdm.
    pose proof (Z.mod_pos_bound index per ltac:(lia)) as Hr.
    assert (Hq : (0 <= index / per <= index)%Z).
    { split; [apply Z.div_pos; lia|]. apply Z.div_le_upper_bound; [lia|]. nia. }
    exists (index / per + 1)%Z, (index / per * per)%Z.
    rewrite floor_div_safe by lia.
    rewrite (round_safe (index / per + 1)%Z) by lia.
    replace (index / per + 1 - 1)%Z with (index / per)%Z by lia.
    rewrite (round_safe (index / per)%Z) by lia.
    rewrite (round_safe (index / per * per)%Z) by nia.
    repeat split; nia.
  - vm_compute. split; reflexivity.
Qed.

Lemma pages_and_offsets_agree_witness :
  getOffsetForPage (fromAPI {| total := Some 95; per_page := Some 10;
                               current_page := Some 1; last_page := Some 10;
                               count := None; offset := None; limit := None |})%Z 7%Z
    = Double.Int 60%Z
  /\ getPageForItemIndex (fromAPI {| total := Some 95; per_page := Some 10;
                                     current_page := Some 1; last_page := Some 10;
                                     count := None; offset := None; limit := None |})%Z
       60%Z
     = Double.Int 7%Z.
Proof.
  assert (Hper : (0 < 10 <= MAX_SAFE_INTEGER)%Z)
    by (vm_compute; split; [reflexivity | discriminate]).
  assert (Hpage : (1 <= 7)%Z) by (vm_compute; discriminate).
  assert (Hlast : (7 * 10 <= MAX_SAFE_INTEGER)%Z) by (vm_compute; discriminate).
  exact (proj1 (@pages_and_offsets_agree
                  (fromAPI {| total := Some 95; per_page := Some 10;
                              current_page := Some 1; last_page := Some 10;
                              count := None; offset := None; limit := None |})%Z
                  7%Z 0%Z Hper) Hpage Hlast).
Defined.


(** X22.  [toJSON] and the constructor undo each other: every one of the
    seven fields comes back under its own name. *)
Theorem pagination_round_trip :
  forall p data,
    fromAPI (toJSON p) = p /\ toJSON (fromAPI data) = data.
Proof. intros [] []. split; reflexivity. Qed.

End PaginationFacts.

(* --------------------------------------------------------------------- *)
(** ** Suppressions *)

Module SuppressionFacts.

Import Suppression.

Lemma equals_exclusive :
  forall x a b, js a <> js b -> equals x a = true -> equals x b = false.
Proof.
  intros [s|] a b Hab Ha; [|reflexivity]. simpl in *.
  apply str_eqb_eq in Ha. subst s.
  destruct (str_eqb (js a) (js b)) eqn:E; [|reflexivity].
  apply str_eqb_eq in E. contradiction.
Qed.

(** X23.  The classification of a suppression is consistent: its category
    is [bounce], [spam] or [unsubscribe] exactly when the matching test
    holds, at most one of the three tests holds, it is permanent exactly
    when its severity is high and temporary exactly when its severity is
    medium, and it is never both permanent and temporary. *)
Theorem suppression_classification :
  forall s,
    (getCategory s = bounce <-> isBounce s = true)
    /\ (getCategory s = spam <-> isSpamComplaint s = true)
    /\ (getCategory s = unsubscribe <-> isUnsubscribe s = true)
    /\ (isPermanent s = true <-> getSeverity s = high)
    /\ (isTemporary s = true <-> getSeverity s = medium)
    /\ (isPermanent s && isTemporary s = false).
Proof.
  intros [[ty|] src created];
    unfold getCategory, getSeverity, isPermanent, isTemporary, isBounce,
      isSpamComplaint, isUnsubscribe; simpl.
  2: { repeat split; intro H; discriminate. }
  destruct (str_eqb ty (js "bounce")) eqn:E1;
    [apply str_eqb_eq in E1; subst ty; simpl; repeat split; intro; try reflexivity; discriminate|].
  destruct (str_eqb ty (js "hard_bounce")) eqn:E2;
    [apply str_eqb_eq in E2; subst ty; simpl; repeat split; intro; try reflexivity; discriminate|].
  destruct (str_eqb ty (js "soft_bounce")) eqn:E3;
    [apply str_eqb_eq in E3; subst ty; simpl; repeat split; intro; try reflexivity; discriminate|].
  destruct (str_eqb ty (js "spam_complaint")) eqn:E4;
    [apply str_eqb_eq in E4; subst ty; simpl; repeat split; intro; try reflexivity; discriminate|].
  destruct (str_eqb ty (js "spam")) eqn:E5;
    [apply str_eqb_eq in E5; subst ty; simpl; repeat split; intro; try reflexivity; discriminate|].
  destruct (str_eqb ty (js "unsubscribe")) eqn:E6;
    [apply str_eqb_eq in E6; subst ty; simpl; repeat split; intro; try reflexivity; discriminate|].
  destruct (str_eqb ty (js "unsub")) eqn:E7;
    simpl; repeat split; intro; try reflexivity; discriminate.
Qed.



End SuppressionFacts.

(* --------------------------------------------------------------------- *)
(** ** What goes on the wire *)

Module WireFacts.

Import RequestFacts ApiExceptionMethods EncodingFacts.

Local Open Scope N_scope.

(** X25.  Keys and values cannot bring separators into the query string of
    [get]: for a record of n parameters the query has exactly n equals
    signs and, when n is not zero, n - 1 ampersands, whatever characters
    the keys and the values hold. *)
Theorem query_has_one_pair_per_parameter :
  forall ky c endpoint params options,
    exists query,
      query_string (fst (get ky c endpoint (Some params) options)) = Some query
      /\ count_occ N.eq_dec query 61 = List.length params
      /\ count_occ N.eq_dec query 38 = Nat.pred (List.length params).
Proof.
  intros ky c endpoint params options.
  unfold query_string, get, makeRequest. simpl.
  eexists. split; [reflexivity|].
  destruct (query_count (new_URLSearchParams params)) as [H1 H2].
  unfold new_URLSearchParams in *. rewrite length_map in *. now split.
Qed.

(** X26.  Whatever the credentials hold (line breaks, control or non-ASCII
    characters), the Authorization header that reaches ky is made of
    printable ASCII only: the text [Basic ] and then characters of the
    base64 alphabet. *)
Theorem authorization_is_printable :
  forall ky c r auth,
    basicAuth c = Some auth ->
    exists encoded,
      lookup (js "Authorization") (sent_headers (issued ky c r)) =
        Some (js "Basic " ++ encoded)
      /\ Forall base64_char encoded
      /\ Forall (fun x => 32 <= x < 127) (js "Basic " ++ encoded).
Proof.
  intros ky c r auth Hauth.
  exists (Buffer_base64 (username auth ++ js ":" ++ token auth)).
  split; [|split].
  - rewrite AuthClaims.sent_headers_issued, Hauth. apply lookup_set_prop_same.
  - apply base64_encode_chars.
  - apply Forall_app. split.
    + change (js "Basic ") with [66; 97; 115; 105; 99; 32].
      repeat (apply Forall_cons; [lia|]). apply Forall_nil.
    + eapply Forall_impl; [|apply base64_encode_chars].
      intros x Hx. unfold base64_char in Hx. lia.
Qed.

Lemma authorization_is_printable_witness :
  exists encoded,
    lookup (js "Authorization")
      (sent_headers (issued (fun _ => Ky.settle success)
                       (setBasicAuth client (jsq "user\nname") [0; 233])
                       (Get (js "api/domains") None None))) =
      Some (js "Basic " ++ encoded)
    /\ Forall (fun x => 32 <= x < 127) (js "Basic " ++ encoded).
Proof.
  destruct (@authorization_is_printable (fun _ => Ky.settle success)
              (setBasicAuth client (jsq "user\nname") [0; 233])
              (Get (js "api/domains") None None)
              {| username := jsq "user\nname"; token := [0; 233] |} eq_refl)
    as (encoded & H1 & _ & H3).
  exists encoded. split; assumption.
Defined.

(** X27.  For every HTTP error response, whatever its status and its body,
    the exception that [makeRequest] throws has the message
    [Unknown API error] and no field errors: [hasErrors] denies and
    [getErrorMessages] is empty. *)
Theorem http_error_exceptions_carry_no_detail :
  forall ky c method endpoint options response,
    ky (fst (makeRequest ky c method endpoint options)) = Rejected (HTTPError response) ->
    exists e,
      snd (makeRequest ky c method endpoint options) = Throws (SdkError e)
      /\ message e = js "Unknown API error"
      /\ errors e = JUndefined
      /\ hasErrors e = false
      /\ getErrorMessages e = [].
Proof.
  intros ky c method endpoint options response Hky.
  rewrite (ErrorFacts.makeRequest_rejected _ _ _ _ _ _ Hky),
    ErrorFacts.handleError_HTTPError.
  cbv zeta.
  repeat match goal with
         | |- context [if ?b then _ else _] => destruct b
         end; eexists; repeat split.
Qed.

Lemma http_error_exceptions_carry_no_detail_witness :
  exists e,
    snd (makeRequest (fun _ => Rejected (HTTPError invalid)) client (js "POST")
           (js "api/domains") no_options) = Throws (SdkError e)
    /\ message e = js "Unknown API error"
    /\ errors e = JUndefined.
Proof.
  destruct (@http_error_exceptions_carry_no_detail
              (fun _ => Rejected (HTTPError invalid)) client (js "POST")
              (js "api/domains") no_options invalid eq_refl)
    as (e & H1 & H2 & H3 & _).
  exists e. repeat split; assumption.
Defined.

End WireFacts.
